(** * The tunnel engine of go-micro: links, sessions and routing

    A shallow embedding of [tunnel/link.go] and [tunnel/default.go].

    - Go's [int]/[int64] are [Z] with the two's-complement wrap-around
      written out ([GoInt]); [float64] is Rocq's primitive binary64 float,
      every operation rounded on its own ([GoFloat]).
    - Go maps are [gmap]s; slices and buffered channels are lists; a
      [chan bool] that is only ever closed is a [signal].
    - A goroutine is cut at its blocking points: each [select] is one step
      whose ready cases are read off the state, the run-time's choice among
      several ready cases being an argument ([pick]).  A step that cannot
      proceed returns [None].
    - What the transport, the clock and the random source answer is an
      argument of the step that asks. *)

From Stdlib Require Import ZArith Floats Uint63.
From Stdlib.Strings Require Import Byte.
From stdpp Require Import gmap strings list.

(** ** Fixed-width integers *)

Module GoInt.
Definition minInt64 : Z := (- 2 ^ 63)%Z.
Definition maxInt64 : Z := (2 ^ 63 - 1)%Z.

(** The value a 64-bit signed register holds after an operation whose
    exact result is [z]. *)
Definition wrap64 (z : Z) : Z := ((z + 2 ^ 63) mod 2 ^ 64 - 2 ^ 63)%Z.

Definition add (a b : Z) : Z := wrap64 (a + b).
Definition mul (a b : Z) : Z := wrap64 (a * b).
(** [x++] *)
Definition incr (a : Z) : Z := add a 1.
End GoInt.

(** ** binary64 *)

Module GoFloat.
(** The untyped constants [0.8], [0.2] and [1e9] converted to float64. *)
Definition c0_8 : float := 0x1.999999999999ap-1%float.
Definition c0_2 : float := 0x1.999999999999ap-3%float.
Definition c1e9 : float := 1000000000%float.

(** [float64(z)] for an int64 [z]: the nearest float. *)
Definition of_int64 (z : Z) : float :=
  if (z =? GoInt.minInt64)%Z then (- 0x1p63)%float
  else if (z <? 0)%Z then (- PrimFloat.of_uint63 (Uint63.of_Z (- z)))%float
  else PrimFloat.of_uint63 (Uint63.of_Z z).

(** What [int64(f)] yields when [f] is NaN or outside int64.  The
    language leaves the value to the implementation; this is amd64's. *)
Definition indefinite : Z := GoInt.minInt64.

(** [int64(f)]: the fraction is discarded (truncation towards zero). *)
Definition to_int64 (f : float) : Z :=
  match Prim2SF f with
  | S754_zero _ => 0%Z
  | S754_finite s m e =>
      let mag := if (0 <=? e)%Z then (Z.pos m * 2 ^ e)%Z
                 else (Z.pos m / 2 ^ (- e))%Z in
      let v := if s then (- mag)%Z else mag in
      if ((GoInt.minInt64 <=? v) && (v <=? GoInt.maxInt64))%Z
      then v else indefinite
  | _ => indefinite
  end.
End GoFloat.

(** ** Channels *)

(** A [chan bool] nobody sends on: receiving from it is ready exactly
    once it has been closed. *)
Inductive signal := SigOpen | SigClosed.

Definition is_closed (c : signal) : bool :=
  match c with SigClosed => true | SigOpen => false end.

(** [close(c)]; closing a closed channel panics ([None]). *)
Definition close_signal (c : signal) : option signal :=
  match c with SigOpen => Some SigClosed | SigClosed => None end.

(** The case a two-case [select] without [default] runs: the only ready
    one, [pick] when both are ready, none ([None]: the goroutine stays
    blocked) when neither is. *)
Inductive branch := First | Second.

Definition select2 (ready1 ready2 : bool) (pick : branch) : option branch :=
  match ready1, ready2 with
  | true, true => Some pick
  | true, false => Some First
  | false, true => Some Second
  | false, false => None
  end.

(** ** Transport *)

(** Values of Go's [error] interface that the tunnel tells apart; [nil]
    is [None] of [option error]. *)
Inductive error :=
| EOF
| ErrDialTimeout
| ErrDiscoverChan
| ErrLinkNotFound
| ErrNew (text : string).

(** Instants and durations, both in nanoseconds; instant [0] is the zero
    [time.Time]. *)
Definition Time := Z.
Definition Duration := Z.

Definition IsZero (t : Time) : bool := (t =? 0)%Z.
(** [time.Since(t)] read at instant [clock]. *)
Definition Since (clock t : Time) : Duration := (clock - t)%Z.

Module Transport.
Record Message := { Header : gmap string string; Body : list byte }.

(** [m.Header[k]]: the empty string when [k] is missing. *)
Definition header (m : Message) (k : string) : string :=
  default "" (Header m !! k).

(** The embedded [transport.Socket], as far as the link looks at it. *)
Record Socket := { Remote : string; Local : string; closes : nat }.
End Transport.

(** * link.go *)

Module Link.
Import Transport.

(** [packet]: [status] is the address of the packet's one-slot status
    channel, [None] for a nil channel. *)
Record packet := {
  message : Message;
  status : option nat;
  err : option error
}.

Record t := {
  Socket : Transport.Socket;
  closed : signal;
  state : list packet;
  sendQueue : list packet;
  recvQueue : list packet;
  id : string;
  loopback : bool;
  connected : bool;
  lastKeepAlive : Time;
  channels : gmap string Time;
  length : Z;
  rate : float;
  errCount : Z
}.

Definition stateCap : nat := 64.
Definition sendQueueCap : nat := 128.
Definition recvQueueCap : nat := 128.

(** Field updates. *)
Definition set_Socket (v : Transport.Socket) (l : t) : t :=
  {| Socket := v; closed := closed l; state := state l;
     sendQueue := sendQueue l; recvQueue := recvQueue l; id := id l;
     loopback := loopback l; connected := connected l;
     lastKeepAlive := lastKeepAlive l; channels := channels l;
     length := length l; rate := rate l; errCount := errCount l |}.
Definition set_closed (v : signal) (l : t) : t :=
  {| Socket := Socket l; closed := v; state := state l;
     sendQueue := sendQueue l; recvQueue := recvQueue l; id := id l;
     loopback := loopback l; connected := connected l;
     lastKeepAlive := lastKeepAlive l; channels := channels l;
     length := length l; rate := rate l; errCount := errCount l |}.
Definition set_state (v : list packet) (l : t) : t :=
  {| Socket := Socket l; closed := closed l; state := v;
     sendQueue := sendQueue l; recvQueue := recvQueue l; id := id l;
     loopback := loopback l; connected := connected l;
     lastKeepAlive := lastKeepAlive l; channels := channels l;
     length := length l; rate := rate l; errCount := errCount l |}.
Definition set_sendQueue (v : list packet) (l : t) : t :=
  {| Socket := Socket l; closed := closed l; state := state l;
     sendQueue := v; recvQueue := recvQueue l; id := id l;
     loopback := loopback l; connected := connected l;
     lastKeepAlive := lastKeepAlive l; channels := channels l;
     length := length l; rate := rate l; errCount := errCount l |}.
Definition set_recvQueue (v : list packet) (l : t) : t :=
  {| Socket := Socket l; closed := closed l; state := state l;
     sendQueue := sendQueue l; recvQueue := v; id := id l;
     loopback := loopback l; connected := connected l;
     lastKeepAlive := lastKeepAlive l; channels := channels l;
     length := length l; rate := rate l; errCount := errCount l |}.
Definition set_id (v : string) (l : t) : t :=
  {| Socket := Socket l; closed := closed l; state := state l;
     sendQueue := sendQueue l; recvQueue := recvQueue l; id := v;
     loopback := loopback l; connected := connected l;
     lastKeepAlive := lastKeepAlive l; channels := channels l;
     length := length l; rate := rate l; errCount := errCount l |}.
Definition set_loopback (v : bool) (l : t) : t :=
  {| Socket := Socket l; closed := closed l; state := state l;
     sendQueue := sendQueue l; recvQueue := recvQueue l; id := id l;
     loopback := v; connected := connected l;
     lastKeepAlive := lastKeepAlive l; channels := channels l;
     length := length l; rate := rate l; errCount := errCount l |}.
Definition set_connected (v : bool) (l : t) : t :=
  {| Socket := Socket l; closed := closed l; state := state l;
     sendQueue := sendQueue l; recvQueue := recvQueue l; id := id l;
     loopback := loopback l; connected := v;
     lastKeepAlive := lastKeepAlive l; channels := channels l;
     length := length l; rate := rate l; errCount := errCount l |}.
Definition set_lastKeepAlive (v : Time) (l : t) : t :=
  {| Socket := Socket l; closed := closed l; state := state l;
     sendQueue := sendQueue l; recvQueue := recvQueue l; id := id l;
     loopback := loopback l; connected := connected l;
     lastKeepAlive := v; channels := channels l;
     length := length l; rate := rate l; errCount := errCount l |}.
Definition set_channels (v : gmap string Time) (l : t) : t :=
  {| Socket := Socket l; closed := closed l; state := state l;
     sendQueue := sendQueue l; recvQueue := recvQueue l; id := id l;
     loopback := loopback l; connected := connected l;
     lastKeepAlive := lastKeepAlive l; channels := v;
     length := length l; rate := rate l; errCount := errCount l |}.
Definition set_length (v : Z) (l : t) : t :=
  {| Socket := Socket l; closed := closed l; state := state l;
     sendQueue := sendQueue l; recvQueue := recvQueue l; id := id l;
     loopback := loopback l; connected := connected l;
     lastKeepAlive := lastKeepAlive l; channels := channels l;
     length := v; rate := rate l; errCount := errCount l |}.
Definition set_rate (v : float) (l : t) : t :=
  {| Socket := Socket l; closed := closed l; state := state l;
     sendQueue := sendQueue l; recvQueue := recvQueue l; id := id l;
     loopback := loopback l; connected := connected l;
     lastKeepAlive := lastKeepAlive l; channels := channels l;
     length := length l; rate := v; errCount := errCount l |}.
Definition set_errCount (v : Z) (l : t) : t :=
  {| Socket := Socket l; closed := closed l; state := state l;
     sendQueue := sendQueue l; recvQueue := recvQueue l; id := id l;
     loopback := loopback l; connected := connected l;
     lastKeepAlive := lastKeepAlive l; channels := channels l;
     length := length l; rate := rate l; errCount := v |}.

(** [newLink(s)]; [uuid] is what [uuid.New().String()] returns and
    [now] what [time.Now()] reads.  The two goroutines it starts are
    the pump and manager steps below. *)
Definition newLink (uuid : string) (now : Time) (s : Transport.Socket) : t :=
  {| Socket := s; closed := SigOpen; state := []; sendQueue := [];
     recvQueue := []; id := uuid; loopback := false; connected := false;
     lastKeepAlive := now; channels := ∅; length := 0%Z;
     rate := 0%float; errCount := 0%Z |}.

(** [setRate(bits, delta)]: bits per nanosecond, stored per second. *)
Definition setRate (bits : Z) (delta : Duration) (l : t) : t :=
  let r := (GoFloat.of_int64 bits / GoFloat.of_int64 delta)%float in
  if PrimFloat.eqb (rate l) 0%float
  then set_rate (r * GoFloat.c1e9)%float l
  else set_rate (GoFloat.c0_8 * rate l
                 + GoFloat.c0_2 * (r * GoFloat.c1e9))%float l.

(** [setRTT(d)], run under the link's lock. *)
Definition setRTT (d : Duration) (l : t) : t :=
  if (length l <=? 0)%Z then set_length d l
  else
    let len := (GoFloat.c0_8 * GoFloat.of_int64 (length l)
                + GoFloat.c0_2 * GoFloat.of_int64 d)%float in
    set_length (GoFloat.to_int64 len) l.

Definition delChannel (ch : string) (l : t) : t :=
  set_channels (delete ch (channels l)) l.

(** [getChannel(ch)]: the zero time when [ch] has no entry. *)
Definition getChannel (ch : string) (l : t) : Time :=
  default 0%Z (channels l !! ch).

Definition setChannel (now : Time) (chs : list string) (l : t) : t :=
  set_channels (foldl (fun m ch => <[ch := now]> m) (channels l) chs) l.

Definition keepalive (now : Time) (l : t) : t := set_lastKeepAlive now l.

Definition Delay (l : t) : Z :=
  Z.of_nat (Datatypes.length (sendQueue l) + Datatypes.length (recvQueue l)).
Definition Rate (l : t) : float := rate l.
Definition Length (l : t) : Z := length l.
Definition Id (l : t) : string := id l.

(** [State()] *)
Definition State (l : t) : string :=
  match closed l with
  | SigClosed => "closed"
  | SigOpen => if (3 <? errCount l)%Z then "error" else "connected"
  end.

(** [Close()]: [None] would be the panic of closing a closed channel.
    The socket's own answer to [Close] is dropped by the code. *)
Definition Close (l : t) : option (t * option error) :=
  match closed l with
  | SigClosed => Some (l, None)
  | SigOpen =>
      let s := Socket l in
      let l := set_Socket {| Remote := Remote s; Local := Local s;
                             closes := S (closes s) |} l in
      c ← close_signal (closed l);
      Some (set_closed c l, None)
  end.

(** A link together with the status channels of the packets in flight
    (one slot each), by address. *)
Record world := { lnk : t; chans : gmap nat (list (option error)) }.

Definition with_lnk (l : t) (w : world) : world :=
  {| lnk := l; chans := chans w |}.

(** [len(m.Body) + Σ (len(k) + len(v))] over the header, as computed by
    [Send]. *)
Definition dataSize (m : Message) : Z :=
  map_fold (fun k v acc => acc + (Z.of_nat (String.length k)
                                  + Z.of_nat (String.length v)))%Z
           (Z.of_nat (Datatypes.length (Body m))) (Header m).

(** Where a call of [Send] stands. *)
Inductive SendPc :=
| AtCheck
| AtQueue (now : Time)
| AtWait (now : Time)
| AtUpdate (now : Time) (e : option error)
| Returned (r : option error).

Record sender := { s_m : Message; s_status : nat; s_pc : SendPc }.

Definition at_pc (pc : SendPc) (s : sender) : sender :=
  {| s_m := s_m s; s_status := s_status s; s_pc := pc |}.

(** Entering [Send(m)]: the packet and its status channel are made. *)
Definition Send_enter (m : Message) (w : world) : world * sender :=
  let a := fresh (dom (chans w)) in
  ({| lnk := lnk w; chans := <[a := []]> (chans w) |},
   {| s_m := m; s_status := a; s_pc := AtCheck |}).

(** The part of [Send] that runs under the lock, once the status [e]
    of the write has arrived; [since] is [time.Since(now)]. *)
Definition Send_update (m : Message) (since : Duration) (e : option error)
    (l : t) : t * option error :=
  match e with
  | Some x => (set_errCount (GoInt.incr (errCount l)) l, Some x)
  | None =>
      let l := set_errCount 0%Z l in
      let dataSent := dataSize m in
      if (0 <? dataSent)%Z
      then (setRate (GoInt.mul dataSent 1024) since l, None)
      else (l, None)
  end.

(** One step of [Send]; [clock] is the time read during the step. *)
Definition Send_step (clock : Time) (pick : branch) (w : world)
    (s : sender) : option (world * sender) :=
  let l := lnk w in
  match s_pc s with
  | AtCheck =>
      if is_closed (closed l) then Some (w, at_pc (Returned (Some EOF)) s)
      else Some (w, at_pc (AtQueue clock) s)
  | AtQueue now =>
      match select2 (bool_decide (Datatypes.length (sendQueue l) < sendQueueCap))
                    (is_closed (closed l)) pick with
      | Some First =>
          let p := {| message := s_m s; status := Some (s_status s);
                      err := None |} in
          Some (with_lnk (set_sendQueue (sendQueue l ++ [p]) l) w,
                at_pc (AtWait now) s)
      | Some Second => Some (w, at_pc (Returned (Some EOF)) s)
      | None => None
      end
  | AtWait now =>
      let buf := default [] (chans w !! s_status s) in
      match select2 (is_closed (closed l))
                    (bool_decide (buf ≠ [])) pick with
      | Some First => Some (w, at_pc (Returned (Some EOF)) s)
      | Some Second =>
          match buf with
          | e :: rest =>
              Some ({| lnk := l; chans := <[s_status s := rest]> (chans w) |},
                    at_pc (AtUpdate now e) s)
          | [] => None
          end
      | None => None
      end
  | AtUpdate now e =>
      let '(l', r) := Send_update (s_m s) (Since clock now) e l in
      Some (with_lnk l' w, at_pc (Returned r) s)
  | Returned _ => None
  end.

(** One turn of the send pump of [process]: it takes the oldest queued
    packet, writes it ([res] is what the socket answers) and posts the
    answer on the packet's status channel; the [bool] tells whether the
    pump goes on. *)
Definition pump_send (res : option error) (pick : branch) (w : world)
    : option (world * bool) :=
  let l := lnk w in
  match select2 (bool_decide (sendQueue l ≠ [])) (is_closed (closed l)) pick with
  | Some First =>
      match sendQueue l with
      | pk :: rest =>
          a ← status pk;
          let buf := default [] (chans w !! a) in
          if bool_decide (Datatypes.length buf < 1)
          then Some ({| lnk := set_sendQueue rest l;
                        chans := <[a := buf ++ [res]]> (chans w) |}, true)
          else None
      | [] => None
      end
  | Some Second => Some (w, false)
  | None => None
  end.

(** The receive pump of [process], first half: one [recv] on the
    socket, which yields [m] and [res]. *)
Definition pump_recv (m : Message) (res : option error) (l : t) : t * packet :=
  let l := match res with
           | Some _ => set_errCount (GoInt.incr (errCount l)) l
           | None => l
           end in
  (l, {| message := m; status := None; err := res |}).

(** Second half: the packet goes to the state channel (dropped when
    that is full) or to the receive queue. *)
Definition pump_deliver (pick : branch) (pk : packet) (l : t)
    : option (t * bool) :=
  if String.eqb (header (message pk) "Micro-Method") "link" then
    if bool_decide (Datatypes.length (state l) < stateCap)
    then Some (set_state (state l ++ [pk]) l, true)
    else Some (l, true)
  else
    match select2 (bool_decide (Datatypes.length (recvQueue l) < recvQueueCap))
                  (is_closed (closed l)) pick with
    | Some First => Some (set_recvQueue (recvQueue l ++ [pk]) l, true)
    | Some Second => Some (l, false)
    | None => None
    end.

(** What a buffered packet gives the caller of [Recv]: its receive
    error, or its message copied into [*m]. *)
Definition serve (pk : packet) (m : Message) : Message * option error :=
  match err pk with
  | Some e => (m, Some e)
  | None => (message pk, None)
  end.

(** [Recv(m)]: the link after the call, the contents of [*m] and the
    returned error; [None] while the call blocks. *)
Definition Recv (pick : branch) (m : Message) (l : t)
    : option (t * Message * option error) :=
  match select2 (is_closed (closed l)) (bool_decide (recvQueue l ≠ [])) pick with
  | Some First =>
      match recvQueue l with
      | pk :: rest =>
          let '(m', r) := serve pk m in Some (set_recvQueue rest l, m', r)
      | [] => Some (l, m, Some EOF)
      end
  | Some Second =>
      match recvQueue l with
      | pk :: rest =>
          let '(m', r) := serve pk m in Some (set_recvQueue rest l, m', r)
      | [] => None
      end
  | None => None
  end.

(** [Send] run alone against a pump that answers at once: the caller's
    steps and the pump's turn in program order.  [t0] and [t1] are the
    clock at entry and at the update, [res] the socket's answer. *)
Definition Send_alone (t0 t1 : Time) (res : option error) (m : Message)
    (w : world) : option (world * option error) :=
  let '(w, s) := Send_enter m w in
  '(w, s) ← Send_step t0 First w s;
  match s_pc s with
  | Returned r => Some (w, r)
  | _ =>
      '(w, s) ← Send_step t0 First w s;
      '(w, _) ← pump_send res First w;
      '(w, s) ← Send_step t1 Second w s;
      '(w, s) ← Send_step t1 First w s;
      match s_pc s with
      | Returned r => Some (w, r)
      | _ => None
      end
  end.
End Link.

(** * default.go *)

(** [Mode] is a [uint8]; the three named values are [iota]. *)
Definition Mode := N.
Definition Unicast : Mode := 0%N.
Definition Multicast : Mode := 1%N.
Definition Broadcast : Mode := 2%N.

(** [err.Error()] *)
Definition Error (e : error) : string :=
  match e with
  | EOF => "EOF"
  | ErrDialTimeout => "dial timeout"
  | ErrDiscoverChan => "failed to discover channel"
  | ErrLinkNotFound => "link not found"
  | ErrNew s => s
  end.

(** The envelope sessions put on the tunnel's [send] channel.  [errChan]
    is [None] for a nil channel and otherwise the contents of a channel
    of one slot, as every [errChan] of the package is made. *)
Record message := {
  typ : string;
  m_tunnel : string;
  m_channel : string;
  m_session : string;
  m_mode : Mode;
  m_outbound : bool;
  m_loopback : bool;
  m_link : string;
  data : option Transport.Message;
  errChan : option (list (option error))
}.

Module Session.
(** The fields of [session] that default.go reads or writes.  The
    [send] field aliases the tunnel's own [send] channel and is kept
    there. *)
Record t := {
  tunnel : string;
  channel : string;
  session : string;
  token : string;
  remote : string;
  local : string;
  link : string;
  mode : Mode;
  timeout : Duration;
  outbound : bool;
  discovered : bool;
  accepted : bool;
  closed : signal;
  wait : signal;
  recv : list message
}.

Definition recvCap : nat := 128.

Definition set_remote (v : string) (s : t) : t :=
  {| tunnel := tunnel s; channel := channel s; session := session s;
     token := token s; remote := v; local := local s; link := link s;
     mode := mode s; timeout := timeout s; outbound := outbound s;
     discovered := discovered s; accepted := accepted s;
     closed := closed s; wait := wait s; recv := recv s |}.
Definition set_local (v : string) (s : t) : t :=
  {| tunnel := tunnel s; channel := channel s; session := session s;
     token := token s; remote := remote s; local := v; link := link s;
     mode := mode s; timeout := timeout s; outbound := outbound s;
     discovered := discovered s; accepted := accepted s;
     closed := closed s; wait := wait s; recv := recv s |}.
Definition set_link (v : string) (s : t) : t :=
  {| tunnel := tunnel s; channel := channel s; session := session s;
     token := token s; remote := remote s; local := local s; link := v;
     mode := mode s; timeout := timeout s; outbound := outbound s;
     discovered := discovered s; accepted := accepted s;
     closed := closed s; wait := wait s; recv := recv s |}.
Definition set_mode (v : Mode) (s : t) : t :=
  {| tunnel := tunnel s; channel := channel s; session := session s;
     token := token s; remote := remote s; local := local s;
     link := link s; mode := v; timeout := timeout s;
     outbound := outbound s; discovered := discovered s;
     accepted := accepted s; closed := closed s; wait := wait s;
     recv := recv s |}.
Definition set_timeout (v : Duration) (s : t) : t :=
  {| tunnel := tunnel s; channel := channel s; session := session s;
     token := token s; remote := remote s; local := local s;
     link := link s; mode := mode s; timeout := v;
     outbound := outbound s; discovered := discovered s;
     accepted := accepted s; closed := closed s; wait := wait s;
     recv := recv s |}.
Definition set_outbound (v : bool) (s : t) : t :=
  {| tunnel := tunnel s; channel := channel s; session := session s;
     token := token s; remote := remote s; local := local s;
     link := link s; mode := mode s; timeout := timeout s;
     outbound := v; discovered := discovered s;
     accepted := accepted s; closed := closed s; wait := wait s;
     recv := recv s |}.
Definition set_discovered (v : bool) (s : t) : t :=
  {| tunnel := tunnel s; channel := channel s; session := session s;
     token := token s; remote := remote s; local := local s;
     link := link s; mode := mode s; timeout := timeout s;
     outbound := outbound s; discovered := v;
     accepted := accepted s; closed := closed s; wait := wait s;
     recv := recv s |}.
Definition set_accepted (v : bool) (s : t) : t :=
  {| tunnel := tunnel s; channel := channel s; session := session s;
     token := token s; remote := remote s; local := local s;
     link := link s; mode := mode s; timeout := timeout s;
     outbound := outbound s; discovered := discovered s;
     accepted := v; closed := closed s; wait := wait s;
     recv := recv s |}.
Definition set_wait (v : signal) (s : t) : t :=
  {| tunnel := tunnel s; channel := channel s; session := session s;
     token := token s; remote := remote s; local := local s;
     link := link s; mode := mode s; timeout := timeout s;
     outbound := outbound s; discovered := discovered s;
     accepted := accepted s; closed := closed s; wait := v;
     recv := recv s |}.
Definition set_recv (v : list message) (s : t) : t :=
  {| tunnel := tunnel s; channel := channel s; session := session s;
     token := token s; remote := remote s; local := local s;
     link := link s; mode := mode s; timeout := timeout s;
     outbound := outbound s; discovered := discovered s;
     accepted := accepted s; closed := closed s; wait := wait s;
     recv := v |}.
End Session.

Module DialOptions.
Record t := { Link : string; Mode : Mode; Timeout : Duration }.
End DialOptions.

Module ListenOptions.
Record t := { Mode : Mode }.
End ListenOptions.

(** [DefaultDialTimeout]: five seconds. *)
Definition DefaultDialTimeout : Duration := 5000000000%Z.

Module Tunnel.
Import Transport.

(** Calls the tunnel makes on an object right before it drops it: its
    entry in the map is what the tunnel knew of the object. *)
Inductive call :=
| SessionClose (key : string)
| LinkSend (node : string) (m : Message)
| LinkClose (node : string)
| ListenerClose.

(** [tun].  A map entry stands for the object the Go map points to, so
    writing through the pointer is rewriting the entry. *)
Record tun := {
  id : string;
  token : string;
  connected : bool;
  send : list message;
  closed : signal;
  sessions : gmap string Session.t;
  links : gmap string Link.t;
  calls : list call
}.

Definition set_connected (v : bool) (t : tun) : tun :=
  {| id := id t; token := token t; connected := v; send := send t;
     closed := closed t; sessions := sessions t; links := links t;
     calls := calls t |}.
Definition set_closed (v : signal) (t : tun) : tun :=
  {| id := id t; token := token t; connected := connected t;
     send := send t; closed := v; sessions := sessions t;
     links := links t; calls := calls t |}.
Definition set_sessions (v : gmap string Session.t) (t : tun) : tun :=
  {| id := id t; token := token t; connected := connected t;
     send := send t; closed := closed t; sessions := v;
     links := links t; calls := calls t |}.
Definition set_links (v : gmap string Link.t) (t : tun) : tun :=
  {| id := id t; token := token t; connected := connected t;
     send := send t; closed := closed t; sessions := sessions t;
     links := v; calls := calls t |}.
Definition set_calls (v : list call) (t : tun) : tun :=
  {| id := id t; token := token t; connected := connected t;
     send := send t; closed := closed t; sessions := sessions t;
     links := links t; calls := v |}.

Definition called (c : list call) (t : tun) : tun :=
  set_calls (calls t ++ c) t.

(** [newTunnel] with options [Id] and [Token]. *)
Definition newTunnel (oid otoken : string) : tun :=
  {| id := oid; token := otoken; connected := false; send := [];
     closed := SigOpen; sessions := ∅; links := ∅; calls := [] |}.

(** [getSession]: [Some s] for [(s, true)], [None] for [(nil, false)]. *)
Definition getSession (channel session : string) (t : tun)
    : option Session.t :=
  sessions t !! (channel +:+ session).

Definition delSession (channel session : string) (t : tun) : tun :=
  let key := channel +:+ session in
  let t := match sessions t !! key with
           | Some _ => called [SessionClose key] t
           | None => t
           end in
  set_sessions (delete key (sessions t)) t.

Definition listChannels (t : tun) : list string :=
  Session.channel <$>
    filter (fun s => Session.session s = "listener")
           (snd <$> map_to_list (sessions t)).

(** [newSession]: the session when it was saved, [None] for
    [(nil, false)]. *)
Definition newSession (channel sessionId : string) (t : tun)
    : tun * option Session.t :=
  let s := {| Session.tunnel := id t; Session.channel := channel;
              Session.session := sessionId; Session.token := token t;
              Session.remote := ""; Session.local := "";
              Session.link := ""; Session.mode := Unicast;
              Session.timeout := 0%Z; Session.outbound := false;
              Session.discovered := false; Session.accepted := false;
              Session.closed := SigOpen; Session.wait := SigOpen;
              Session.recv := [] |} in
  match sessions t !! (channel +:+ sessionId) with
  | Some _ => (t, None)
  | None =>
      (set_sessions (<[channel +:+ sessionId := s]> (sessions t)) t, Some s)
  end.

(** Writing through the session pointer held under [key]. *)
Definition putSession (key : string) (s : Session.t) (t : tun) : tun :=
  set_sessions (alter (fun _ => s) key (sessions t)) t.

(** Writing through the link pointer held under [node]. *)
Definition putLink (node : string) (l : Link.t) (t : tun) : tun :=
  set_links (alter (fun _ => l) node (links t)) t.

(** [delLink(remote)]: every link whose id is [remote] is closed and
    dropped. *)
Definition delLink (remote : string) (t : tun) : tun :=
  let dead := filter (fun kl => Link.id kl.2 = remote)
                     (map_to_list (links t)) in
  called (LinkClose ∘ fst <$> dead)
    (set_links (filter (fun kl => Link.id kl.2 ≠ remote) (links t)) t).

(** The transport message [process] builds from an envelope. *)
Definition newMsg (msg : message) : Message :=
  let h := match data msg with Some d => Header d | None => ∅ end in
  let b := match data msg with Some d => Body d | None => [] end in
  {| Header :=
       <["Micro-Tunnel-Session" := m_session msg]>
         (<["Micro-Tunnel-Channel" := m_channel msg]>
            (<["Micro-Tunnel-Id" := m_tunnel msg]>
               (<["Micro-Tunnel" := typ msg]> h)));
     Body := b |}.

(** The first loop of [process]: the links to send to, in the order the
    map was walked, and the value [err] is left with. *)
Fixpoint buildSendTo (msg : message) (ls : list (string * Link.t))
    (err : option error) : list (string * Link.t) * option error :=
  match ls with
  | [] => ([], err)
  | (node, link) :: rest =>
      let id := Link.id link in
      let connected := Link.connected link in
      let loopback := Link.loopback link in
      let exists_ := bool_decide (is_Some (Link.channels link !! m_channel msg)) in
      if negb connected then
        buildSendTo msg rest (Some (ErrNew "link not connected"))
      else if loopback && m_outbound msg then
        buildSendTo msg rest (Some (ErrNew "link is loopback"))
      else if m_loopback msg && negb loopback then
        buildSendTo msg rest (Some (ErrNew "link is not loopback"))
      else if (m_mode msg =? Multicast)%N then
        if negb exists_ then buildSendTo msg rest err
        else
          let '(sendTo, e) := buildSendTo msg rest err in
          ((node, link) :: sendTo, e)
      else if (0 <? String.length (m_link msg))%nat
              && negb (String.eqb id (m_link msg)) then
        buildSendTo msg rest (Some (ErrNew "link not found"))
      else
        let '(sendTo, e) := buildSendTo msg rest err in
        ((node, link) :: sendTo, e)
  end.

Section WithTransport.
(** What [link.Send(m)] does to the link and returns, as the call
    runs to its end. *)
Variable linkSend : Link.t -> Message -> Link.t * option error.

(** [link.Close()] with its result dropped, as [delLink] calls it. *)
Definition closeLink (l : Link.t) : Link.t :=
  match Link.Close l with
  | Some (l', _) => l'
  | None => l
  end.

(** A link of [sendTo] as the second loop finds it: [sendTo] holds
    pointers, and [delLink] closes every link whose id it was given,
    also one still waiting in [sendTo]. *)
Definition found (dead : list string) (l : Link.t) : Link.t :=
  if bool_decide (Link.id l ∈ dead) then closeLink l else l.

(** One call of [link.Send]: the node, the link as it was found and
    what [Send] returned. *)
Definition attempt : Type := string * Link.t * option error.

(** Result of the second loop of [process]. *)
Record sendResult := {
  after : tun;
  tried : list attempt;
  wasSent : bool;
  lastErr : option error
}.

(** The second loop of [process]; [tried] lists the calls of [Send], in
    order; [dead] holds the ids given to [delLink] so far. *)
Fixpoint sendLoop (mode : Mode) (m : Message)
    (sendTo : list (string * Link.t)) (dead : list string) (t : tun)
    (sent : bool) (err : option error) : sendResult :=
  match sendTo with
  | [] => {| after := t; tried := []; wasSent := sent; lastErr := err |}
  | (node, link) :: rest =>
      let link := found dead link in
      let '(link', r) := linkSend link m in
      let t := putLink node link' t in
      match r with
      | Some errr =>
          let remote := Remote (Link.Socket link') in
          let t := delLink remote t in
          let res := sendLoop mode m rest (remote :: dead) t sent
                       (Some (ErrNew (Error errr))) in
          {| after := after res; tried := (node, link, r) :: tried res;
             wasSent := wasSent res; lastErr := lastErr res |}
      | None =>
          if (Unicast <? mode)%N then
            let res := sendLoop mode m rest dead t true err in
            {| after := after res; tried := (node, link, r) :: tried res;
               wasSent := wasSent res; lastErr := lastErr res |}
          else
            {| after := t; tried := [(node, link, r)]; wasSent := true;
               lastErr := err |}
      end
  end.

(** The links one envelope is sent to. *)
Definition candidates (msg : message) (t : tun) : list (string * Link.t) :=
  (buildSendTo msg (map_to_list (links t)) None).1.

(** One turn of [process] for the envelope [msg] taken from [send]:
    the tunnel after it, the calls of [Send] and the envelope's error
    channel. *)
Definition process (msg : message) (t : tun)
    : tun * list attempt * option (list (option error)) :=
  let '(sendTo, err) := buildSendTo msg (map_to_list (links t)) None in
  let res := sendLoop (m_mode msg) (newMsg msg) sendTo [] t false err in
  let gerr := if wasSent res then None else lastErr res in
  let ch := match errChan msg with
            | None => None
            | Some buf =>
                if bool_decide (Datatypes.length buf < 1)
                then Some (buf ++ [gerr]) else Some buf
            end in
  (after res, tried res, ch).

(** The message [close()] sends down every link. *)
Definition closeMsg (tid : string) : Message :=
  {| Header := {["Micro-Tunnel" := "close"; "Micro-Tunnel-Id" := tid]};
     Body := [] |}.

(** [close()]: [listenerClose] is what [t.listener.Close()] returns.
    What the links answer to the ["close"] message is dropped. *)
Definition close (listenerClose : option error) (t : tun)
    : tun * option error :=
  let t := called (SessionClose ∘ fst <$> map_to_list (sessions t))
             (set_sessions ∅ t) in
  let t := called (map_to_list (links t) ≫=
                     fun kl => [LinkSend kl.1 (closeMsg (id t)); LinkClose kl.1])
             (set_links ∅ t) in
  (called [ListenerClose] t, listenerClose).

(** [Close()]; [None] would be the panic of closing a closed
    channel. *)
Definition Close (listenerClose : option error) (t : tun)
    : option (tun * option error) :=
  if negb (connected t) then Some (t, None)
  else
    match closed t with
    | SigClosed => Some (t, None)
    | SigOpen =>
        c ← close_signal (closed t);
        Some (close listenerClose (set_connected false (set_closed c t)))
    end.
End WithTransport.

(** The loop of [pickLink], from index [i] on. *)
Fixpoint pickLoop (i : nat) (links : list Link.t) (metric : float)
    (chosen : option Link.t) : option Link.t :=
  match links with
  | [] => chosen
  | link :: rest =>
      if negb (String.eqb (Link.State link) "connected") then
        pickLoop (S i) rest metric chosen
      else
        let d := GoFloat.of_int64 (Link.Delay link) in
        let l := GoFloat.of_int64 (Link.Length link) in
        let r := Link.Rate link in
        let m := (d * l * r)%float in
        if (i =? 0)%nat then pickLoop (S i) rest m (Some link)
        else if PrimFloat.ltb m metric then pickLoop (S i) rest m (Some link)
        else pickLoop (S i) rest metric chosen
  end.

(** The link the loop of [pickLink] settles on, if any. *)
Definition pickBest (links : list Link.t) : option Link.t :=
  pickLoop 0 links 0%float None.

(** [rand.Intn(n)] drawn from the source value [rnd]; it panics
    ([None]) unless [0 < n]. *)
Definition Intn (rnd n : nat) : option nat :=
  if (n =? 0)%nat then None else Some (rnd mod n).

(** [pickLink(links)]; [None] is a run-time panic. *)
Definition pickLink (rnd : nat) (links : list Link.t) : option Link.t :=
  match pickBest links with
  | Some chosen => Some chosen
  | None => i ← Intn rnd (Datatypes.length links); links !! i
  end.

(** What [Dial] asks of its surroundings.  [newSessionId] is the fresh
    uuid, [rnd] the random source, [discoverTime] and [openTime] the
    two [time.Since] readings.

    Modelled from the spec: [Session.Discover] and [Session.Open], whose
    file is not among the sources.  Discover "waits for an announce
    whose channel matches", fails "after the dial timeout" and on
    success "pins link = announce.link and sets discovered = true"; it
    answers with its error and the announcing link.  Open "emits open"
    and "waits (bounded by dial timeout) for accept"; it answers with
    its error. *)
Record DialEnv := {
  newSessionId : string;
  rnd : nat;
  Discover : Session.t -> option error * string;
  discoverTime : Duration;
  Open : Session.t -> option error;
  openTime : Duration
}.

(** The links the loop of [Dial] appends to [links], [want] being
    [options.Link]. *)
Fixpoint dialLinks (channel want : string) (ls : list (string * Link.t))
    : list Link.t :=
  match ls with
  | [] => []
  | (_, link) :: rest =>
      if (0 <? String.length want)%nat
         && negb (String.eqb (Link.id link) want)
      then dialLinks channel want rest
      else if negb (IsZero (Link.getChannel channel link))
      then link :: dialLinks channel want rest
      else dialLinks channel want rest
  end.

(** [link.setRTT(d)] on [t.links[c.link]], when there is such a link;
    the [bool] is [ok]. *)
Definition measure (d : Duration) (c : Session.t) (t : tun) : tun * bool :=
  match links t !! Session.link c with
  | Some link => (putLink (Session.link c) (Link.setRTT d link) t, true)
  | None => (t, false)
  end.

(** [Dial] from [c.Open()] on. *)
Definition Dial_open (env : DialEnv) (measured : bool) (c : Session.t)
    (t : tun) : tun * option Session.t * option error :=
  match Open env c with
  | Some err =>
      (delSession (Session.channel c) (Session.session c) t, None, Some err)
  | None =>
      if negb measured && (Session.mode c =? Unicast)%N
      then ((measure (openTime env) c t).1, Some c, None)
      else (t, Some c, None)
  end.

(** [Dial] from the test of [c.discovered] on; [key] is where the
    session map holds [c]. *)
Definition Dial_discover (env : DialEnv) (key : string) (c : Session.t)
    (t : tun) : tun * option Session.t * option error :=
  if negb (Session.discovered c) then
    match Discover env c with
    | (Some err, _) =>
        (delSession (Session.channel c) (Session.session c) t, None, Some err)
    | (None, lk) =>
        let c := Session.set_discovered true (Session.set_link lk c) in
        let t := putSession key c t in
        let '(t, measured) := measure (discoverTime env) c t in
        Dial_open env measured c t
    end
  else Dial_open env false c t.

(** [Dial(channel, opts...)]; [options] is [DialOptions] after the
    [opts] were applied to [{Timeout: DefaultDialTimeout}].  [None] is
    a run-time panic. *)
Definition Dial (env : DialEnv) (channel : string)
    (options : DialOptions.t) (t : tun)
    : option (tun * option Session.t * option error) :=
  match newSession channel (newSessionId env) t with
  | (t, None) =>
      Some (t, None, Some (ErrNew ("error dialing " +:+ channel)))
  | (t, Some c) =>
      let key := channel +:+ newSessionId env in
      let c := Session.set_remote channel c in
      let c := Session.set_local "local" c in
      let c := Session.set_outbound true c in
      let c := Session.set_mode (DialOptions.Mode options) c in
      let c := Session.set_timeout (DialOptions.Timeout options) c in
      let links := dialLinks channel (DialOptions.Link options)
                     (map_to_list (links t)) in
      let c := if bool_decide (links = []) then c
               else Session.set_discovered true c in
      let t := putSession key c t in
      if (Datatypes.length links =? 0)%nat
         && (0 <? String.length (DialOptions.Link options))%nat
      then
        Some (delSession (Session.channel c) (Session.session c) t,
              None, Some ErrLinkNotFound)
      else if Session.discovered c && (Session.mode c =? Unicast)%N
      then
        link ← pickLink (rnd env) links;
        let c := Session.set_link (Link.id link) c in
        Some (Dial_discover env key c (putSession key c t))
      else Some (Dial_discover env key c t)
  end.

(** [Listen(channel, opts...)]: the session of the listener it
    returns, whose [delFunc] is [delSession channel "listener"]. *)
Definition Listen (channel : string) (options : ListenOptions.t) (t : tun)
    : tun * option Session.t * option error :=
  match newSession channel "listener" t with
  | (t, None) =>
      (t, None, Some (ErrNew ("already listening on " +:+ channel)))
  | (t, Some c) =>
      let c := Session.set_remote "remote" c in
      let c := Session.set_local channel c in
      let c := Session.set_mode (ListenOptions.Mode options) c in
      (putSession (channel +:+ "listener") c t, Some c, None)
  end.

(** [listen], on a ["close"] message that names a channel and a
    session other than the listener's: a unicast session is deleted
    unless the link is a loopback. *)
Definition listen_close (loopback : bool) (channel sessionId : string)
    (t : tun) : tun :=
  match getSession channel sessionId t with
  | Some s =>
      if negb loopback && (Session.mode s =? Unicast)%N
      then delSession channel sessionId t
      else t
  | None => t
  end.

(** [listen], before it delivers to the session [s] it found: a closed
    session makes it run [delete(t.sessions, channel)]. *)
Definition listen_closed (channel : string) (s : Session.t) (t : tun) : tun :=
  if is_closed (Session.closed s)
  then set_sessions (delete channel (sessions t)) t
  else t.
End Tunnel.

(** * Everything that can happen to a link *)

(** One atomic action on a link by any of the goroutines that hold it:
    the steps of [Send] and [Recv] callers, the two pumps, [Close], and
    the field updates made under the link's lock. *)
Inductive link_step : Link.world -> Link.world -> Prop :=
| step_Send_enter m w w' s :
    Link.Send_enter m w = (w', s) -> link_step w w'
| step_Send clock pick w s w' s' :
    Link.Send_step clock pick w s = Some (w', s') -> link_step w w'
| step_pump_send res pick w w' b :
    Link.pump_send res pick w = Some (w', b) -> link_step w w'
| step_pump_recv m res w l' pk :
    Link.pump_recv m res (Link.lnk w) = (l', pk) ->
    link_step w (Link.with_lnk l' w)
| step_pump_deliver pick pk w l' b :
    Link.pump_deliver pick pk (Link.lnk w) = Some (l', b) ->
    link_step w (Link.with_lnk l' w)
| step_Recv pick m w l' m' r :
    Link.Recv pick m (Link.lnk w) = Some (l', m', r) ->
    link_step w (Link.with_lnk l' w)
| step_Close w l' r :
    Link.Close (Link.lnk w) = Some (l', r) ->
    link_step w (Link.with_lnk l' w)
| step_setRTT d w :
    link_step w (Link.with_lnk (Link.setRTT d (Link.lnk w)) w)
| step_setChannel now chs w :
    link_step w (Link.with_lnk (Link.setChannel now chs (Link.lnk w)) w)
| step_delChannel ch w :
    link_step w (Link.with_lnk (Link.delChannel ch (Link.lnk w)) w)
| step_keepalive now w :
    link_step w (Link.with_lnk (Link.keepalive now (Link.lnk w)) w)
| step_connect lb w :
    link_step w
      (Link.with_lnk
         (Link.set_connected true
            (Link.set_id (Transport.Remote (Link.Socket (Link.lnk w)))
               (Link.set_loopback lb (Link.lnk w)))) w).

(** [Recv] called once per element of [picks], each call on the message
    the one before left: what each call left in [*m] and returned. *)
Fixpoint Recvs (picks : list branch) (m : Transport.Message) (l : Link.t)
    : option (Link.t * list (Transport.Message * option error)) :=
  match picks with
  | [] => Some (l, [])
  | pick :: rest =>
      '(l, m', r) ← Link.Recv pick m l;
      '(l, out) ← Recvs rest m' l;
      Some (l, (m', r) :: out)
  end.

(** What a queue of buffered packets hands to successive [Recv] calls
    that start on message [m]. *)
Fixpoint served (pks : list Link.packet) (m : Transport.Message)
    : list (Transport.Message * option error) :=
  match pks with
  | [] => []
  | pk :: rest =>
      let out := Link.serve pk m in out :: served rest out.1
  end.

(** The message the last of those calls leaves. *)
Definition last_message (pks : list Link.packet) (m : Transport.Message)
    : Transport.Message :=
  foldl (fun m pk => (Link.serve pk m).1) m pks.

(** * The estimates in the words of the specification *)

Module Spec.
(** "sets the RTT estimate to d when the current estimate is zero or
    negative, and otherwise to 0.8·rtt + 0.2·d truncated to an
    integer". *)
Definition rtt (rtt : Z) (d : Duration) : Z :=
  if decide (rtt ≤ 0)%Z then d
  else GoFloat.to_int64
         (GoFloat.c0_8 * GoFloat.of_int64 rtt
          + GoFloat.c0_2 * GoFloat.of_int64 d)%float.

(** "bits = 1024 × (len(body) + the sum over headers of
    len(key) + len(value))". *)
Definition bits (m : Transport.Message) : Z :=
  (1024 *
   Z.of_nat (Datatypes.length (Transport.Body m)
             + sum_list_with
                 (fun kv : string * string =>
                    String.length kv.1 + String.length kv.2)%nat
                 (map_to_list (Transport.Header m)))%nat)%Z.

(** "the elapsed time ..., converted to bits per second": bits per
    nanosecond times 10^9. *)
Definition sample (bits : Z) (elapsed : Duration) : float :=
  (GoFloat.of_int64 bits / GoFloat.of_int64 elapsed * GoFloat.c1e9)%float.

(** "the first non-zero sample replaces a zero rate directly, and
    otherwise rate' = 0.8·rate + 0.2·sample". *)
Definition rate (rate sample : float) : float :=
  if PrimFloat.eqb rate 0%float then sample
  else (GoFloat.c0_8 * rate + GoFloat.c0_2 * sample)%float.
End Spec.

(** * Sample values *)

Module Sample.
Import Transport.

Definition sock : Socket := {| Remote := "10.0.0.2:8085"; Local := "10.0.0.1:8085"; closes := 0 |}.

(** A link as [newLink] makes it. *)
Definition fresh : Link.t := Link.newLink "6ba7b810" 1000%Z sock.

Definition hello : Message :=
  {| Header := {["Content-Type" := "text"]};
     Body := [x68; x65; x6c; x6c; x6f] |}.

Definition empty : Message := {| Header := ∅; Body := [] |}.

Definition pkt (m : Message) : Link.packet :=
  {| Link.message := m; Link.status := None; Link.err := None |}.

(** A link with the given queue depth, round trip and rate. *)
Definition measured (name : string) (delay : nat) (len : Z) (r : float)
    : Link.t :=
  Link.set_rate r
    (Link.set_length len
       (Link.set_sendQueue (replicate delay (pkt empty))
          (Link.set_connected true (Link.set_id name fresh)))).

Definition shut (l : Link.t) : Link.t := Link.set_closed SigClosed l.

Definition world (l : Link.t) : Link.world :=
  {| Link.lnk := l; Link.chans := ∅ |}.

(** A caller of [Send(hello)] that entered at instant 1000 and has just
    been handed the status [e] of its write. *)
Definition answered (e : option error) : Link.sender :=
  {| Link.s_m := hello; Link.s_status := 0;
     Link.s_pc := Link.AtUpdate 1000%Z e |}.

Definition brokenPipe : error := ErrNew "write: broken pipe".
End Sample.

(** * The candidate links in the words of the specification *)

(** "drop links with connected=false; drop loopback links when the
    envelope is outbound; drop non-loopback links when the envelope is
    marked loopback; if the envelope names an explicit link id
    (non-multicast), keep only that one; for Multicast, keep only links
    whose channel-membership map includes the envelope's channel". *)
Definition candidate (msg : message) (link : Link.t) : Prop :=
  Link.connected link = true
  /\ ~ (Link.loopback link = true /\ m_outbound msg = true)
  /\ ~ (m_loopback msg = true /\ Link.loopback link = false)
  /\ (m_mode msg = Multicast ->
      is_Some (Link.channels link !! m_channel msg))
  /\ (m_mode msg <> Multicast -> m_link msg <> "" ->
      Link.id link = m_link msg).

(** "on Unicast stop after the first successful send": no call of
    [Send] follows one that returned nil, and of [n] links some are left
    out only after such a call. *)
Definition stops_at_first_sent (tried : list Tunnel.attempt) (n : nat)
    : Prop :=
  (forall i a, tried !! i = Some a -> a.2 = None ->
               S i = length tried)
  /\ (length tried < n ->
      exists a, last tried = Some a /\ a.2 = None).

(** "iterate the remaining set": the calls go down [sendTo] in its
    order, each to the link found there, closed when an earlier failure
    had it deleted. *)
Definition goes_down (tried : list Tunnel.attempt)
    (sendTo : list (string * Link.t)) : Prop :=
  Forall2 (fun (a : Tunnel.attempt) kl =>
             a.1.1 = kl.1
             /\ (a.1.2 = kl.2 \/ a.1.2 = Tunnel.closeLink kl.2))
          tried (take (length tried) sendTo).

(** * Everything that can happen to the session map *)

(** Every entry of the session map sits under the concatenation of its
    own channel and session id. *)
Definition sessions_keyed (t : Tunnel.tun) : Prop :=
  forall k s, Tunnel.sessions t !! k = Some s ->
              k = Session.channel s +:+ Session.session s.

(** A write through a session pointer that leaves the session's channel
    and id alone, as all of them in default.go do. *)
Definition keeps_identity (f : Session.t -> Session.t) : Prop :=
  forall s, Session.channel (f s) = Session.channel s
            /\ Session.session (f s) = Session.session s.

(** One action on a tunnel: the calls of its API, one turn of [process],
    the places where [listen] and a listener's [Close] touch the session
    map, a field write through a session pointer, and whatever else
    leaves the session map as it is (the monitor, [Connect], the
    goroutines of the links). *)
Inductive tunnel_step : Tunnel.tun -> Tunnel.tun -> Prop :=
| step_Dial env channel options t t' c e :
    Tunnel.Dial env channel options t = Some (t', c, e) -> tunnel_step t t'
| step_Listen channel options t t' c e :
    Tunnel.Listen channel options t = (t', c, e) -> tunnel_step t t'
| step_listener_Close channel t :
    tunnel_step t (Tunnel.delSession channel "listener" t)
| step_tunnel_Close lc t t' e :
    Tunnel.Close lc t = Some (t', e) -> tunnel_step t t'
| step_process linkSend msg t t' tried ch :
    Tunnel.process linkSend msg t = (t', tried, ch) -> tunnel_step t t'
| step_listen_close loopback channel sessionId t :
    tunnel_step t (Tunnel.listen_close loopback channel sessionId t)
| step_listen_closed channel key s t :
    Tunnel.sessions t !! key = Some s ->
    tunnel_step t (Tunnel.listen_closed channel s t)
| step_session_write key f t :
    keeps_identity f ->
    tunnel_step t (Tunnel.set_sessions (alter f key (Tunnel.sessions t)) t)
| step_elsewhere t t' :
    Tunnel.sessions t' = Tunnel.sessions t -> tunnel_step t t'.

(** * Sample tunnels *)

(** Three links under three nodes, the second not connected. *)
Definition threeLinks : Tunnel.tun :=
  Tunnel.set_links
    {[ "n1" := Sample.measured "a" 1 1%Z 1%float;
       "n2" := Link.set_connected false (Sample.measured "b" 2 2%Z 2%float);
       "n3" := Sample.measured "c" 1 10%Z 1%float ]}
    (Tunnel.newTunnel "tun-a" "secret").

(** A transport on which [Send] fails on the link with the given id
    and goes through on every other. *)
Definition failsOn (name : string) (l : Link.t) (m : Transport.Message)
    : Link.t * option error :=
  if String.eqb (Link.id l) name then (l, Some Sample.brokenPipe)
  else (l, None).

(** An envelope as a dialled session sends it. *)
Definition envelope (mode : Mode) : message :=
  {| typ := "message"; m_tunnel := "tun-a"; m_channel := "chat";
     m_session := "s1"; m_mode := mode; m_outbound := true;
     m_loopback := false; m_link := ""; data := Some Sample.hello;
     errChan := Some [] |}.

(** * The pinned link of [Dial] *)

(** The tunnel holds a link with the id [want] that has a mapping for
    the channel. *)
Definition pinned (channel want : string) (t : Tunnel.tun) : Prop :=
  exists node link,
    Tunnel.links t !! node = Some link
    /\ Link.id link = want
    /\ Link.getChannel channel link <> 0%Z.

(** Surroundings of [Dial] in which the discovery is answered from node
    ["n1"] after 10 ns and the open is accepted after 20 ns. *)
Definition friendly : Tunnel.DialEnv :=
  {| Tunnel.newSessionId := "s1"; Tunnel.rnd := 0;
     Tunnel.Discover := fun _ => (None, "n1");
     Tunnel.discoverTime := 10%Z;
     Tunnel.Open := fun _ => None;
     Tunnel.openTime := 20%Z |}.

(** [Dial] options that pin the link with the given id. *)
Definition pin (id : string) : DialOptions.t :=
  {| DialOptions.Link := id; DialOptions.Mode := Unicast;
     DialOptions.Timeout := DefaultDialTimeout |}.

(** * The metric in the words of the specification *)

(** "metric = delay × length × rate". *)
Definition metric (l : Link.t) : float :=
  (GoFloat.of_int64 (Link.Delay l) * GoFloat.of_int64 (Link.Length l)
   * Link.Rate l)%float.

(** A closed link followed by a connected one with delay, length and
    rate 1. *)
Definition closedThenConnected : list Link.t :=
  [Sample.shut (Sample.measured "a" 1 1%Z 1%float);
   Sample.measured "b" 1 1%Z 1%float].

(** The three links of the specification's example. *)
Definition exampleLinks : list Link.t :=
  [Sample.measured "a" 1 1%Z 1%float;
   Sample.measured "b" 2 2%Z 2%float;
   Sample.measured "c" 1 10%Z 1%float].

(** * The manager of a link *)

Module Manage.
Import Transport.

#[global] Instance byte_eq_dec : EqDecision byte := Byte.byte_eq_dec.

(** The two link state packets. *)
Definition linkRequest : list byte := [x00; x00; x00; x00].
Definition linkResponse : list byte := [x01; x01; x01; x01].

(** The message the [send] closure of [manage] hands to [Send]. *)
Definition stateMessage (b : list byte) : Message :=
  {| Header := {["Micro-Method" := "link"]}; Body := b |}.

(** [time.Minute * 2], in nanoseconds. *)
Definition killTime : Duration := 120000000000%Z.

(** The channels the tick collects in [kill]; [clock] is the time read
    during the turn. *)
Definition kill (clock : Time) (l : Link.t) : list string :=
  (filter (fun ct : string * Time => (killTime < Since clock ct.2)%Z)
          (map_to_list (Link.channels l))).*1.

(** The [<-t.C] branch of [manage]: the link, the local [now], and the
    state packet it fires, if any. *)
Definition tick (clock now : Time) (l : Link.t)
    : Link.t * Time * option Message :=
  let k := kill clock l in
  if (length k =? 0)%nat then (l, now, None)
  else
    (Link.set_channels (foldl (fun m ch => delete ch m) (Link.channels l) k) l,
     clock, Some (stateMessage linkRequest)).

(** The [p := <-l.state] branch of [manage] for the packet [p];
    [linkSend] is what [l.Send] does as it runs to its end. *)
Definition onState (linkSend : Link.t -> Message -> Link.t * option error)
    (clock now : Time) (p : Link.packet) (l : Link.t) : Link.t :=
  match Link.err p with
  | Some _ => l
  | None =>
      if bool_decide (Body (Link.message p) = linkRequest) then
        let '(l, e) := linkSend l (stateMessage linkResponse) in
        match e with
        | Some _ => Link.set_errCount (GoInt.incr (Link.errCount l)) l
        | None => l
        end
      else if bool_decide (Body (Link.message p) = linkResponse) then
        Link.setRTT (Since clock now) l
      else l
  end.
End Manage.

(** The three buffered channels of a link hold no more than they were
    made for. *)
Definition within_capacity (l : Link.t) : Prop :=
  length (Link.sendQueue l) <= Link.sendQueueCap
  /\ length (Link.recvQueue l) <= Link.recvQueueCap
  /\ length (Link.state l) <= Link.stateCap.

(** The receive pump delivering the packets [pks] one after the other,
    the receive queue ready each time. *)
Fixpoint deliver (pks : list Link.packet) (l : Link.t) : option Link.t :=
  match pks with
  | [] => Some l
  | pk :: rest =>
      '(l, _) ← Link.pump_deliver First pk l;
      deliver rest l
  end.

(** A packet that is not a link state packet. *)
Definition forCaller (pk : Link.packet) : Prop :=
  Transport.header (Link.message pk) "Micro-Method" <> "link".

(** The receive queue holds no link state packet and the state channel
    nothing else. *)
Definition apart (l : Link.t) : Prop :=
  Forall forCaller (Link.recvQueue l)
  /\ Forall (fun pk => Transport.header (Link.message pk) "Micro-Method"
                       = "link") (Link.state l).

(** * Facts about links *)

Section Integers.
Import GoInt.
Local Open Scope Z_scope.

Lemma wrap64_small z : minInt64 <= z <= maxInt64 -> wrap64 z = z.
Proof.
  unfold wrap64, minInt64, maxInt64. intros Hz.
  rewrite Z.mod_small; lia.
Qed.

Lemma incr_small z : minInt64 <= z < maxInt64 -> incr z = z + 1.
Proof.
  intros Hz. unfold incr, add. apply wrap64_small.
  unfold minInt64, maxInt64 in *. lia.
Qed.

Lemma mul_small a b : minInt64 <= a * b <= maxInt64 -> mul a b = a * b.
Proof. apply wrap64_small. Qed.
End Integers.

Lemma setRate_eq bits delta l :
  Link.setRate bits delta l
  = Link.set_rate (Spec.rate (Link.rate l) (Spec.sample bits delta)) l.
Proof.
  unfold Link.setRate, Spec.rate, Spec.sample.
  by destruct (PrimFloat.eqb (Link.rate l) 0).
Qed.

Lemma setRTT_eq d l :
  Link.setRTT d l = Link.set_length (Spec.rtt (Link.length l) d) l.
Proof.
  unfold Link.setRTT, Spec.rtt.
  destruct (Z.leb_spec (Link.length l) 0); case_decide; (done || lia).
Qed.

Ltac crunch :=
  repeat (simplify_option_eq; simpl in *; auto;
          try match goal with
              | H : context [match ?x with _ => _ end] |- _ => destruct x eqn:?
              | H : context [if ?x then _ else _] |- _ => destruct x eqn:?
              | |- context [match ?x with _ => _ end] => destruct x eqn:?
              end).

Lemma Send_update_closed m since e l :
  Link.closed (Link.Send_update m since e l).1 = Link.closed l.
Proof.
  unfold Link.Send_update. destruct e; [done|].
  case_match; [|done]. by rewrite setRate_eq.
Qed.

Lemma link_step_closed w w' :
  link_step w w' ->
  Link.closed (Link.lnk w) = SigClosed -> Link.closed (Link.lnk w') = SigClosed.
Proof.
  intros Hs Hc. destruct Hs as
    [m w w' s H|clock pick w s w' s' H|res pick w w' b H|m res w l' pk H
    |pick pk w l' b H|pick m w l' m' r H|w l' r H|d w|now chs w|ch w|now w|lb w];
    simpl; auto.
  - unfold Link.Send_enter in H. by simplify_eq.
  - unfold Link.Send_step in H. rewrite Hc in H.
    destruct (Link.s_pc s) as [|now|now|now e|r] eqn:Hpc; [crunch..| |crunch].
    pose proof (Send_update_closed (Link.s_m s) (Since clock now) e (Link.lnk w)) as Hu.
    destruct (Link.Send_update _ _ _ _) eqn:Heq. simplify_eq. simpl in *. congruence.
  - unfold Link.pump_send in H. rewrite Hc in H. crunch.
  - unfold Link.pump_recv in H. crunch.
  - unfold Link.pump_deliver in H. crunch.
  - unfold Link.Recv, Link.serve in H. crunch.
  - unfold Link.Close in H. rewrite Hc in H. by simplify_eq.
  - by rewrite setRTT_eq.
Qed.

Lemma link_steps_closed w w' :
  rtc link_step w w' ->
  Link.closed (Link.lnk w) = SigClosed -> Link.closed (Link.lnk w') = SigClosed.
Proof. induction 1; eauto using link_step_closed. Qed.

Lemma State_closed l : Link.closed l = SigClosed -> Link.State l = "closed".
Proof. unfold Link.State. by intros ->. Qed.

Lemma Close_closed l l' r : Link.Close l = Some (l', r) -> Link.closed l' = SigClosed.
Proof.
  unfold Link.Close. destruct (Link.closed l) eqn:Hc; simpl; rewrite ?Hc; simpl;
    intros; by simplify_eq.
Qed.


Lemma State_cases l :
  Link.State l =
    match Link.closed l with
    | SigClosed => "closed"
    | SigOpen => if decide (3 < Link.errCount l)%Z then "error" else "connected"
    end.
Proof.
  unfold Link.State. destruct (Link.closed l); [|done].
  destruct (Z.ltb_spec 3 (Link.errCount l)); case_decide; (done || lia).
Qed.

Lemma Send_returns_nil clock pick w s w' s' :
  Link.Send_step clock pick w s = Some (w', s') ->
  Link.s_pc s' = Link.Returned None ->
  exists now, Link.s_pc s = Link.AtUpdate now None
    /\ Link.lnk w' = (Link.Send_update (Link.s_m s) (Since clock now) None (Link.lnk w)).1.
Proof.
  intros Hs Hr. unfold Link.Send_step in Hs.
  destruct (Link.s_pc s) as [|now|now|now e|r] eqn:Hpc; [crunch..| |crunch].
  exists now. destruct (Link.Send_update _ _ e _) as [l1 r1] eqn:Hu.
  simplify_eq. simpl in Hr. simplify_eq.
  destruct e as [x|]; [unfold Link.Send_update in Hu; by simplify_eq|].
  by rewrite Hu.
Qed.

(** C5: [State()] is "closed" from the first [Close()] on, whatever
    happens to the link afterwards; it is "error" exactly when the link
    is not closed and [errCount] exceeds 3, and "connected" exactly when
    the link is not closed and [errCount] is at most 3.  A [Send] that
    returns nil leaves [errCount] at 0; a [Send] whose write failed, and a
    failed [recv] of the receive pump, add one to [errCount] (in 64-bit
    arithmetic, which is plain addition below the largest int). *)
Theorem State_follows_errCount :
  (forall w l' r w',
      Link.Close (Link.lnk w) = Some (l', r) ->
      rtc link_step (Link.with_lnk l' w) w' ->
      Link.State (Link.lnk w') = "closed")
  /\ (forall l, Link.State l = "error"
                <-> Link.closed l = SigOpen /\ (3 < Link.errCount l)%Z)
  /\ (forall l, Link.State l = "connected"
                <-> Link.closed l = SigOpen /\ (Link.errCount l <= 3)%Z)
  /\ (forall clock pick w s w' s',
        Link.Send_step clock pick w s = Some (w', s') ->
        Link.s_pc s' = Link.Returned None ->
        Link.errCount (Link.lnk w') = 0%Z)
  /\ (forall clock pick w s now x,
        Link.s_pc s = Link.AtUpdate now (Some x) ->
        exists w', Link.Send_step clock pick w s
                   = Some (w', Link.at_pc (Link.Returned (Some x)) s)
                   /\ Link.errCount (Link.lnk w')
                      = GoInt.wrap64 (Link.errCount (Link.lnk w) + 1))
  /\ (forall m x l,
        Link.errCount (Link.pump_recv m (Some x) l).1
        = GoInt.wrap64 (Link.errCount l + 1))
  /\ (forall n, (GoInt.minInt64 <= n < GoInt.maxInt64)%Z ->
                GoInt.wrap64 (n + 1) = (n + 1)%Z).
Proof.
  repeat apply conj.
  - intros w l' r w' Hc Hs. apply State_closed.
    apply (link_steps_closed _ _ Hs). simpl. eauto using Close_closed.
  - intros l. rewrite State_cases.
    destruct (Link.closed l); [case_decide|]; split; intros Hx; try done;
      destruct Hx; done.
  - intros l. rewrite State_cases.
    destruct (Link.closed l); [case_decide|]; split; intros Hx; try done;
      try (destruct Hx; (done || lia)); split; (done || lia).
  - intros clock pick w s w' s' Hs Hr.
    destruct (Send_returns_nil _ _ _ _ _ _ Hs Hr) as (now & _ & ->).
    unfold Link.Send_update. case_match; [|done]. by rewrite setRate_eq.
  - intros clock pick w s now x Hpc. unfold Link.Send_step. rewrite Hpc. simpl.
    eexists. split; done.
  - done.
  - intros n Hn. apply wrap64_small. unfold GoInt.minInt64, GoInt.maxInt64 in *. lia.
Qed.

Lemma State_follows_errCount_witness :
  (exists l', Link.Close Sample.fresh = Some (l', None)
              /\ Link.State l' = "closed")
  /\ (exists w', Link.Send_step 5000%Z First (Sample.world Sample.fresh)
                   (Sample.answered None)
                 = Some (w', Link.at_pc (Link.Returned None) (Sample.answered None))
                 /\ Link.errCount (Link.lnk w') = 0%Z)
  /\ (exists w', Link.Send_step 5000%Z First (Sample.world Sample.fresh)
                   (Sample.answered (Some Sample.brokenPipe))
                 = Some (w', Link.at_pc (Link.Returned (Some Sample.brokenPipe))
                               (Sample.answered (Some Sample.brokenPipe)))
                 /\ Link.errCount (Link.lnk w') = 1%Z)
  /\ GoInt.wrap64 (3 + 1) = 4%Z.
Proof.
  destruct State_follows_errCount as (H1 & _ & _ & H4 & H5 & _ & H7).
  repeat apply conj.
  - eexists. split; [reflexivity|].
    exact (H1 (Sample.world Sample.fresh) _ None
              (Link.with_lnk _ (Sample.world Sample.fresh)) eq_refl (rtc_refl _ _)).
  - eexists. split; [reflexivity|].
    exact (H4 5000%Z First (Sample.world Sample.fresh) (Sample.answered None)
              _ _ eq_refl eq_refl).
  - destruct (H5 5000%Z First (Sample.world Sample.fresh)
                (Sample.answered (Some Sample.brokenPipe)) 1000%Z Sample.brokenPipe
                eq_refl) as (w' & Hs & He).
    exists w'. split; [exact Hs|]. rewrite He. reflexivity.
  - apply H7. unfold GoInt.minInt64, GoInt.maxInt64. lia.
Defined.


(** Two samples on a fresh link: 100 ns, then 200 ns, give
    0.8·100 + 0.2·200 = 120 ns. *)
Example setRTT_100_200 :
  Link.length (Link.setRTT 200%Z (Link.setRTT 100%Z Sample.fresh)) = 120%Z.
Proof. vm_compute. reflexivity. Qed.

(** A sum that is not a whole number is cut, not rounded:
    0.8·7 + 0.2·9 = 7.4 gives 7 and 0.8·9 + 0.2·13 = 9.8 gives 9. *)
Example setRTT_truncates :
  Link.length (Link.setRTT 9%Z (Link.set_length 7%Z Sample.fresh)) = 7%Z
  /\ Link.length (Link.setRTT 13%Z (Link.set_length 9%Z Sample.fresh)) = 9%Z.
Proof. vm_compute. split; reflexivity. Qed.

Lemma Recv_closed_cons pick m l pk rest :
  Link.closed l = SigClosed -> Link.recvQueue l = pk :: rest ->
  Link.Recv pick m l
  = Some (Link.set_recvQueue rest l, (Link.serve pk m).1, (Link.serve pk m).2).
Proof.
  intros Hc Hq. unfold Link.Recv. rewrite Hc, Hq. simpl.
  destruct pick, (Link.serve pk m); reflexivity.
Qed.

Lemma Recv_closed_nil pick m l :
  Link.closed l = SigClosed -> Link.recvQueue l = [] ->
  Link.Recv pick m l = Some (l, m, Some EOF).
Proof. intros Hc Hq. unfold Link.Recv. rewrite Hc, Hq. reflexivity. Qed.

Lemma set_recvQueue_same l : Link.set_recvQueue (Link.recvQueue l) l = l.
Proof. by destruct l. Qed.

(** Draining a closed link: as many calls as there are buffered packets
    serve them in order, and the call after them returns [EOF]. *)
Lemma Recvs_drain picks m l :
  Link.closed l = SigClosed ->
  Datatypes.length picks = S (Datatypes.length (Link.recvQueue l)) ->
  Recvs picks m l
  = Some (Link.set_recvQueue [] l,
          served (Link.recvQueue l) m
            ++ [(last_message (Link.recvQueue l) m, Some EOF)]).
Proof.
  remember (Link.recvQueue l) as q eqn:Hq.
  revert picks m l Hq. induction q as [|pk q IH]; intros picks m l Hq Hc Hlen.
  - destruct picks as [|pick [|? ?]]; simplify_eq/=.
    rewrite (Recv_closed_nil pick m l Hc (eq_sym Hq)). simpl.
    rewrite Hq, set_recvQueue_same. reflexivity.
  - destruct picks as [|pick picks]; simplify_eq/=.
    rewrite (Recv_closed_cons pick m l pk q Hc (eq_sym Hq)). simpl.
    rewrite (IH picks (Link.serve pk m).1 (Link.set_recvQueue q l));
      [|reflexivity|exact Hc|exact Hlen].
    by destruct (Link.serve pk m).
Qed.



Lemma Tunnel_close_connected lc t :
  Tunnel.connected (Tunnel.close lc t).1 = Tunnel.connected t.
Proof. reflexivity. Qed.

(** C9: [Close] on a link never panics and returns nil; called again it
    returns nil and leaves the link as it is, so the socket's [Close] ran
    at most once and the signal was closed once.  [Close] on a tunnel
    never panics; called again (whatever the listener would answer) it
    returns nil and leaves the tunnel as it is.  On a tunnel whose close
    channel is open while it is connected, as [newTunnel] and [Connect]
    leave it, [connected] is false after the first [Close] and stays
    false. *)
Theorem Close_idempotent :
  (forall l, exists l1,
      Link.Close l = Some (l1, None)
      /\ Link.Close l1 = Some (l1, None)
      /\ Link.closed l1 = SigClosed
      /\ Transport.closes (Link.Socket l1)
         = (Transport.closes (Link.Socket l)
            + (if is_closed (Link.closed l) then 0 else 1))%nat)
  /\ (forall lc lc' t, exists t1 r,
        Tunnel.Close lc t = Some (t1, r)
        /\ Tunnel.Close lc' t1 = Some (t1, None))
  /\ (forall lc t t1 r,
        (Tunnel.connected t = true -> Tunnel.closed t = SigOpen) ->
        Tunnel.Close lc t = Some (t1, r) ->
        Tunnel.connected t1 = false
        /\ (Tunnel.connected t = true -> Tunnel.closed t1 = SigClosed)).
Proof.
  repeat apply conj.
  - intros l. unfold Link.Close. destruct (Link.closed l) eqn:Hc; simpl.
    + rewrite Hc. simpl. eexists. repeat split; simpl; lia.
    + exists l. rewrite Hc. repeat split; lia.
  - intros lc lc' t. unfold Tunnel.Close.
    destruct (Tunnel.connected t) eqn:Hcon; simpl.
    + destruct (Tunnel.closed t) eqn:Hcl; simpl.
      * eexists _, _. split; [reflexivity|]. reflexivity.
      * exists t, None. by rewrite Hcon, Hcl.
    + exists t, None. by rewrite Hcon.
  - intros lc t t1 r Hinv. unfold Tunnel.Close.
    destruct (Tunnel.connected t) eqn:Hcon; simpl.
    + rewrite (Hinv eq_refl). simpl. intros [= <- <-]. by split.
    + intros [= <- <-]. by split.
Qed.

Lemma Close_idempotent_witness :
  exists t1,
    Tunnel.Close None
      (Tunnel.set_connected true (Tunnel.newTunnel "tun-a" "secret"))
    = Some (t1, None)
    /\ Tunnel.connected t1 = false /\ Tunnel.closed t1 = SigClosed.
Proof.
  destruct Close_idempotent as (_ & _ & H3).
  eexists. split; [reflexivity|].
  destruct (H3 None (Tunnel.set_connected true (Tunnel.newTunnel "tun-a" "secret"))
               _ None (fun _ => eq_refl) eq_refl) as [Hc Hd].
  split; [exact Hc|exact (Hd eq_refl)].
Defined.

Lemma foldr_header_size (l : list (string * string)) (b : Z) :
  foldr (uncurry (fun (k v : string) (acc : Z) =>
                    acc + (Z.of_nat (String.length k) + Z.of_nat (String.length v)))%Z)
        b l
  = (b + Z.of_nat (sum_list_with
                     (fun kv : string * string =>
                        String.length kv.1 + String.length kv.2)%nat l))%Z.
Proof.
  induction l as [|[k v] l IH]; simpl; [lia|]. rewrite IH. lia.
Qed.

(** The size [Send] computes is the size the specification names. *)
Lemma dataSize_bits m : (1024 * Link.dataSize m)%Z = Spec.bits m.
Proof.
  unfold Link.dataSize, Spec.bits. rewrite map_fold_foldr, foldr_header_size. lia.
Qed.

Lemma dataSize_nonneg m : (0 <= Link.dataSize m)%Z.
Proof.
  pose proof (dataSize_bits m) as H. unfold Spec.bits in H. lia.
Qed.

(** What the locked tail of [Send] does to the rate. *)
Lemma Send_update_rate m since e l :
  Link.rate (Link.Send_update m since e l).1
  = match e with
    | Some _ => Link.rate l
    | None =>
        if decide (0 < Link.dataSize m)%Z
        then Spec.rate (Link.rate l)
               (Spec.sample (GoInt.mul (Link.dataSize m) 1024) since)
        else Link.rate l
    end.
Proof.
  unfold Link.Send_update. destruct e; [done|].
  destruct (Z.ltb_spec 0 (Link.dataSize m)); case_decide; try lia; [|done].
  by rewrite setRate_eq.
Qed.

Lemma Send_step_check clock pick w s :
  Link.s_pc s = Link.AtCheck -> Link.closed (Link.lnk w) = SigOpen ->
  Link.Send_step clock pick w s = Some (w, Link.at_pc (Link.AtQueue clock) s).
Proof. intros Hpc Hc. unfold Link.Send_step. by rewrite Hpc, Hc. Qed.

Lemma Send_step_queue clock pick w s now :
  Link.s_pc s = Link.AtQueue now -> Link.closed (Link.lnk w) = SigOpen ->
  Datatypes.length (Link.sendQueue (Link.lnk w)) < Link.sendQueueCap ->
  Link.Send_step clock pick w s
  = Some (Link.with_lnk
            (Link.set_sendQueue
               (Link.sendQueue (Link.lnk w)
                  ++ [{| Link.message := Link.s_m s;
                         Link.status := Some (Link.s_status s);
                         Link.err := None |}]) (Link.lnk w)) w,
          Link.at_pc (Link.AtWait now) s).
Proof.
  intros Hpc Hc Hlen. unfold Link.Send_step. rewrite Hpc, Hc.
  by rewrite bool_decide_eq_true_2.
Qed.

Lemma Send_step_wait clock pick w s now e rest :
  Link.s_pc s = Link.AtWait now -> Link.closed (Link.lnk w) = SigOpen ->
  Link.chans w !! Link.s_status s = Some (e :: rest) ->
  Link.Send_step clock pick w s
  = Some ({| Link.lnk := Link.lnk w;
             Link.chans := <[Link.s_status s := rest]> (Link.chans w) |},
          Link.at_pc (Link.AtUpdate now e) s).
Proof.
  intros Hpc Hc Hbuf. unfold Link.Send_step. rewrite Hpc, Hc, Hbuf. reflexivity.
Qed.

Lemma Send_step_update clock pick w s now e :
  Link.s_pc s = Link.AtUpdate now e ->
  Link.Send_step clock pick w s
  = Some (Link.with_lnk
            (Link.Send_update (Link.s_m s) (Since clock now) e (Link.lnk w)).1 w,
          Link.at_pc
            (Link.Returned
               (Link.Send_update (Link.s_m s) (Since clock now) e (Link.lnk w)).2) s).
Proof.
  intros Hpc. unfold Link.Send_step. rewrite Hpc.
  by destruct (Link.Send_update _ _ _ _).
Qed.

Lemma pump_send_head res pick w pk rest a :
  Link.closed (Link.lnk w) = SigOpen ->
  Link.sendQueue (Link.lnk w) = pk :: rest -> Link.status pk = Some a ->
  Link.chans w !! a = Some [] ->
  Link.pump_send res pick w
  = Some ({| Link.lnk := Link.set_sendQueue rest (Link.lnk w);
             Link.chans := <[a := [res]]> (Link.chans w) |}, true).
Proof.
  intros Hc Hq Ha Hb. unfold Link.pump_send. rewrite Hc, Hq, Ha. simpl.
  rewrite Hb. reflexivity.
Qed.

Lemma Send_update_result m since e l :
  (Link.Send_update m since e l).2 = e.
Proof. unfold Link.Send_update. destruct e; [done|]. by case_match. Qed.

Lemma Send_alone_open t0 t1 res m w :
  Link.closed (Link.lnk w) = SigOpen -> Link.sendQueue (Link.lnk w) = [] ->
  exists w',
    Link.Send_alone t0 t1 res m w = Some (w', res)
    /\ Link.lnk w' = (Link.Send_update m (Since t1 t0) res (Link.lnk w)).1.
Proof.
  destruct w as [l ch]. simpl. intros Hc Hq.
  unfold Link.Send_alone, Link.Send_enter. simpl.
  set (a := fresh (dom ch)).
  rewrite Send_step_check by done. simpl.
  rewrite (Send_step_queue _ _ _ _ t0) by (simpl; rewrite ?Hq; simpl; done || (unfold Link.sendQueueCap; lia)).
  simpl. rewrite Hq. simpl.
  erewrite pump_send_head; [|done|reflexivity|reflexivity|simpl; apply lookup_insert_eq].
  simpl.
  erewrite (Send_step_wait _ _ _ _ t0); [|reflexivity|done|simpl; apply lookup_insert_eq].
  simpl. erewrite Send_step_update by reflexivity. simpl.
  rewrite Send_update_result. eexists. split; [reflexivity|]. simpl.
  f_equal. f_equal. destruct l; simpl in *; by subst.
Qed.

Lemma Send_returns_error clock pick w s w' s' x :
  Link.Send_step clock pick w s = Some (w', s') ->
  Link.s_pc s' = Link.Returned (Some x) ->
  Link.rate (Link.lnk w') = Link.rate (Link.lnk w).
Proof.
  intros Hs Hr. unfold Link.Send_step in Hs.
  destruct (Link.s_pc s) as [|now|now|now e|r] eqn:Hpc.
  - by case_match; simplify_eq.
  - destruct (select2 _ _ _) as [[]|]; by simplify_eq.
  - destruct (select2 _ _ _) as [[]|]; simplify_eq; [done|].
    by case_match; simplify_eq.
  - pose proof (Send_update_rate (Link.s_m s) (Since clock now) e (Link.lnk w)) as Hrate.
    pose proof (Send_update_result (Link.s_m s) (Since clock now) e (Link.lnk w)) as Hres.
    destruct (Link.Send_update _ _ _ _) as [l1 r1]. simplify_eq/=. exact Hrate.
  - done.
Qed.

(** C7, as amended: a [Send] that returns nil for a message of non-zero
    size updates the rate from [bits = 1024 × (len(body) + Σ (len(key) +
    len(value)))] and the time since the [Send] started, converted to
    bits per second: a zero rate is replaced by the sample, any other
    rate becomes [0.8·rate + 0.2·sample].  A [Send] that returns an
    error, and a [Send] of an empty message, leave the rate as it was. *)
Theorem Send_rate_update :
  (forall clock pick w s w' s',
      Link.Send_step clock pick w s = Some (w', s') ->
      Link.s_pc s' = Link.Returned None ->
      (0 < Link.dataSize (Link.s_m s))%Z ->
      (Spec.bits (Link.s_m s) <= GoInt.maxInt64)%Z ->
      exists now,
        Link.s_pc s = Link.AtUpdate now None
        /\ Link.rate (Link.lnk w')
           = Spec.rate (Link.rate (Link.lnk w))
               (Spec.sample (Spec.bits (Link.s_m s)) (Since clock now)))
  /\ (forall t0 t1 m w,
        Link.closed (Link.lnk w) = SigOpen ->
        Link.sendQueue (Link.lnk w) = [] ->
        (0 < Link.dataSize m)%Z -> (Spec.bits m <= GoInt.maxInt64)%Z ->
        exists w',
          Link.Send_alone t0 t1 None m w = Some (w', None)
          /\ Link.rate (Link.lnk w')
             = Spec.rate (Link.rate (Link.lnk w))
                 (Spec.sample (Spec.bits m) (Since t1 t0)))
  /\ (forall clock pick w s w' s' x,
        Link.Send_step clock pick w s = Some (w', s') ->
        Link.s_pc s' = Link.Returned (Some x) ->
        Link.rate (Link.lnk w') = Link.rate (Link.lnk w))
  /\ (forall clock pick w s w' s',
        Link.Send_step clock pick w s = Some (w', s') ->
        Link.s_pc s' = Link.Returned None ->
        Link.dataSize (Link.s_m s) = 0%Z ->
        Link.rate (Link.lnk w') = Link.rate (Link.lnk w)).
Proof.
  assert (Hbits : forall m, (Spec.bits m <= GoInt.maxInt64)%Z ->
                            GoInt.mul (Link.dataSize m) 1024 = Spec.bits m).
  { intros m Hm. rewrite <- dataSize_bits in *. rewrite mul_small; [lia|].
    pose proof (dataSize_nonneg m). unfold GoInt.minInt64. lia. }
  repeat apply conj.
  - intros clock pick w s w' s' Hs Hr Hpos Hmax.
    destruct (Send_returns_nil _ _ _ _ _ _ Hs Hr) as (now & Hpc & ->).
    exists now. split; [done|]. rewrite Send_update_rate.
    rewrite decide_True by done. by rewrite Hbits.
  - intros t0 t1 m w Hc Hq Hpos Hmax.
    destruct (Send_alone_open t0 t1 None m w Hc Hq) as (w' & Hs & Hl).
    exists w'. split; [done|]. rewrite Hl, Send_update_rate.
    rewrite decide_True by done. by rewrite Hbits.
  - apply Send_returns_error.
  - intros clock pick w s w' s' Hs Hr Hzero.
    destruct (Send_returns_nil _ _ _ _ _ _ Hs Hr) as (now & Hpc & ->).
    rewrite Send_update_rate. rewrite decide_False by lia. done.
Qed.

Lemma Send_rate_update_witness :
  exists w',
    Link.Send_alone 1000%Z 2000%Z None Sample.hello (Sample.world Sample.fresh)
    = Some (w', None)
    /\ Link.rate (Link.lnk w')
       = Spec.rate 0%float (Spec.sample (Spec.bits Sample.hello) 1000%Z).
Proof.
  destruct Send_rate_update as (_ & H2 & _ & _).
  apply (H2 1000%Z 2000%Z Sample.hello (Sample.world Sample.fresh));
    [reflexivity|reflexivity|vm_compute; reflexivity
    |vm_compute; intros Hgt; discriminate Hgt].
Defined.

(** C7 as stated fails: the write of a 21-byte message on a fresh link
    fails after 1000 ns; [Send] returns the error and the rate keeps its
    zero, where the claim has it replaced by the sample of
    21504 bits / 1000 ns = 2.1504e10 bits per second. *)
Lemma Send_failed_keeps_rate :
  match Link.Send_alone 1000%Z 2000%Z (Some Sample.brokenPipe) Sample.hello
          (Sample.world Sample.fresh) with
  | Some (w', r) =>
      r = Some Sample.brokenPipe
      /\ Link.rate (Link.lnk w') = 0%float
      /\ Spec.rate (Link.rate Sample.fresh)
           (Spec.sample (Spec.bits Sample.hello) (Since 2000%Z 1000%Z))
         = 21504000000%float
      /\ Link.rate (Link.lnk w')
         <> Spec.rate (Link.rate Sample.fresh)
              (Spec.sample (Spec.bits Sample.hello) (Since 2000%Z 1000%Z))
  | None => False
  end.
Proof.
  vm_compute. repeat split.
  intros H. apply (f_equal (fun x => PrimFloat.eqb x 0%float)) in H.
  vm_compute in H. discriminate H.
Qed.

(** * Facts about the session map *)

Lemma keyed_newTunnel i tok : sessions_keyed (Tunnel.newTunnel i tok).
Proof. intros k s. simpl. by rewrite lookup_empty. Qed.

Lemma keyed_same_sessions t t' :
  Tunnel.sessions t' = Tunnel.sessions t -> sessions_keyed t -> sessions_keyed t'.
Proof. unfold sessions_keyed. by intros ->. Qed.

Lemma keyed_delete k t :
  sessions_keyed t ->
  sessions_keyed (Tunnel.set_sessions (delete k (Tunnel.sessions t)) t).
Proof.
  intros Hk k' s. simpl. rewrite lookup_delete. case_decide; [done|]. apply Hk.
Qed.

Lemma keyed_delSession channel session t :
  sessions_keyed t -> sessions_keyed (Tunnel.delSession channel session t).
Proof.
  intros Hk. unfold Tunnel.delSession.
  destruct (Tunnel.sessions t !! _); by apply (keyed_delete _ _ Hk).
Qed.

Lemma keyed_putSession key c t :
  key = Session.channel c +:+ Session.session c ->
  sessions_keyed t -> sessions_keyed (Tunnel.putSession key c t).
Proof.
  intros Hkey Hk k s. unfold Tunnel.putSession. simpl.
  rewrite lookup_alter. case_decide as Heq.
  - subst k. destruct (Tunnel.sessions t !! key); simpl; [|done]. by intros [= <-].
  - apply Hk.
Qed.

Lemma keyed_alter f key t :
  keeps_identity f -> sessions_keyed t ->
  sessions_keyed (Tunnel.set_sessions (alter f key (Tunnel.sessions t)) t).
Proof.
  intros Hf Hk k s. simpl. rewrite lookup_alter. case_decide as Heq; [|apply Hk].
  subst k. destruct (Tunnel.sessions t !! key) as [s0|] eqn:Hs0; simpl; [|done].
  intros [= <-]. destruct (Hf s0) as [-> ->]. by apply Hk.
Qed.

Lemma newSession_spec channel sid t :
  match Tunnel.sessions t !! (channel +:+ sid) with
  | Some _ => Tunnel.newSession channel sid t = (t, None)
  | None =>
      exists c, Tunnel.newSession channel sid t
                = (Tunnel.set_sessions
                     (<[channel +:+ sid := c]> (Tunnel.sessions t)) t, Some c)
                /\ Session.channel c = channel /\ Session.session c = sid
  end.
Proof.
  unfold Tunnel.newSession. destruct (Tunnel.sessions t !! _); [done|].
  eexists. split; [reflexivity|]. done.
Qed.

Lemma keyed_newSession channel sid t :
  sessions_keyed t -> sessions_keyed (Tunnel.newSession channel sid t).1.
Proof.
  intros Hk. pose proof (newSession_spec channel sid t) as Hn.
  destruct (Tunnel.sessions t !! _); [by rewrite Hn|].
  destruct Hn as (c & -> & Hc & Hs). intros k s. simpl.
  rewrite lookup_insert. case_decide; [|apply Hk]. intros [= <-]. by rewrite Hc, Hs.
Qed.

Lemma measure_sessions d c t :
  Tunnel.sessions (Tunnel.measure d c t).1 = Tunnel.sessions t.
Proof. unfold Tunnel.measure. by destruct (Tunnel.links t !! _). Qed.

Lemma keyed_Dial_open env measured c t :
  sessions_keyed t -> sessions_keyed (Tunnel.Dial_open env measured c t).1.1.
Proof.
  intros Hk. unfold Tunnel.Dial_open. destruct (Tunnel.Open env c); simpl.
  - by apply keyed_delSession.
  - case_match; simpl; [|done].
    apply (keyed_same_sessions t); [apply measure_sessions|done].
Qed.

Lemma keyed_Dial_discover env key c t :
  key = Session.channel c +:+ Session.session c ->
  sessions_keyed t -> sessions_keyed (Tunnel.Dial_discover env key c t).1.1.
Proof.
  intros Hkey Hk. unfold Tunnel.Dial_discover.
  destruct (negb (Session.discovered c)); [|by apply keyed_Dial_open].
  destruct (Tunnel.Discover env c) as [[err|] lk]; simpl.
  - by apply keyed_delSession.
  - destruct (Tunnel.measure _ _ _) as [t1 m] eqn:Hm.
    apply keyed_Dial_open.
    apply (keyed_same_sessions (Tunnel.putSession key
             (Session.set_discovered true (Session.set_link lk c)) t)).
    + change t1 with (t1, m).1. rewrite <- Hm. apply measure_sessions.
    + by apply keyed_putSession.
Qed.

Lemma keyed_Dial env channel options t t' r e :
  Tunnel.Dial env channel options t = Some (t', r, e) ->
  sessions_keyed t -> sessions_keyed t'.
Proof.
  intros Hd Hk. unfold Tunnel.Dial in Hd.
  pose proof (newSession_spec channel (Tunnel.newSessionId env) t) as Hn.
  destruct (Tunnel.sessions t !! _) eqn:Hlook.
  { rewrite Hn in Hd. by simplify_eq. }
  destruct Hn as (c0 & Hn & Hc & Hs). rewrite Hn in Hd. clear Hn.
  set (t0 := Tunnel.set_sessions _ t) in Hd.
  assert (Hk0 : sessions_keyed t0).
  { intros k s. subst t0. simpl. rewrite lookup_insert. case_decide; [|apply Hk].
    intros [= <-]. by rewrite Hc, Hs. }
  clearbody t0.
  set (key := channel +:+ Tunnel.newSessionId env) in Hd.
  set (c1 := Session.set_timeout _ (Session.set_mode _ (Session.set_outbound true
               (Session.set_local "local" (Session.set_remote channel c0))))) in Hd.
  assert (Hkey1 : forall c', Session.channel c' = channel ->
                             Session.session c' = Tunnel.newSessionId env ->
                             key = Session.channel c' +:+ Session.session c').
  { by intros c' -> ->. }
  set (c2 := if bool_decide _ then c1 else Session.set_discovered true c1) in Hd.
  assert (Hc2 : Session.channel c2 = channel
                /\ Session.session c2 = Tunnel.newSessionId env).
  { subst c2 c1. by case_bool_decide. }
  destruct Hc2 as [Hc2 Hs2]. clearbody c2.
  pose proof (keyed_putSession key c2 t0 (Hkey1 _ Hc2 Hs2) Hk0) as Hk1.
  destruct (_ && _) in Hd.
  { simplify_eq. by apply keyed_delSession. }
  destruct (_ && _) in Hd.
  - destruct (Tunnel.pickLink _ _) as [lk|]; [|done]. simpl in Hd.
    injection Hd as Hd.
    pose proof (keyed_Dial_discover env key (Session.set_link (Link.id lk) c2)
                  (Tunnel.putSession key (Session.set_link (Link.id lk) c2)
                     (Tunnel.putSession key c2 t0))) as Hdd.
    rewrite Hd in Hdd. apply Hdd; [by apply Hkey1|].
    apply keyed_putSession; [by apply Hkey1|done].
  - injection Hd as Hd.
    pose proof (keyed_Dial_discover env key c2 (Tunnel.putSession key c2 t0)) as Hdd.
    rewrite Hd in Hdd. apply Hdd; [by apply Hkey1|done].
Qed.

Lemma keyed_Listen channel options t t' r e :
  Tunnel.Listen channel options t = (t', r, e) ->
  sessions_keyed t -> sessions_keyed t'.
Proof.
  intros Hl Hk. unfold Tunnel.Listen in Hl.
  pose proof (newSession_spec channel "listener" t) as Hn.
  pose proof (keyed_newSession channel "listener" t Hk) as Hk0.
  destruct (Tunnel.sessions t !! _).
  { rewrite Hn in Hl. by simplify_eq. }
  destruct Hn as (c0 & Hn & Hc & Hs). rewrite Hn in Hl, Hk0.
  injection Hl as <- _ _.
  apply keyed_putSession; [|done]. simpl. by rewrite Hc, Hs.
Qed.

Lemma Close_sessions lc t t' e :
  Tunnel.Close lc t = Some (t', e) ->
  Tunnel.sessions t' = Tunnel.sessions t \/ Tunnel.sessions t' = ∅.
Proof.
  unfold Tunnel.Close. destruct (negb _); [intros [= <- <-]; by left|].
  destruct (Tunnel.closed t); simpl; intros [= <- <-]; [by right|by left].
Qed.

Lemma delLink_sessions remote t :
  Tunnel.sessions (Tunnel.delLink remote t) = Tunnel.sessions t.
Proof. reflexivity. Qed.

Lemma sendLoop_sessions linkSend mode m sendTo dead t sent err :
  Tunnel.sessions
    (Tunnel.after (Tunnel.sendLoop linkSend mode m sendTo dead t sent err))
  = Tunnel.sessions t.
Proof.
  revert dead t sent err.
  induction sendTo as [|[node link] rest IH]; intros dead t sent err;
    simpl; [done|].
  destruct (linkSend _ m) as [link' [errr|]]; simpl.
  - by rewrite IH.
  - destruct (Unicast <? mode)%N; simpl; [by rewrite IH|done].
Qed.

Lemma process_sessions linkSend msg t :
  Tunnel.sessions (Tunnel.process linkSend msg t).1.1 = Tunnel.sessions t.
Proof.
  unfold Tunnel.process. destruct (Tunnel.buildSendTo _ _ _) as [sendTo err].
  simpl. apply sendLoop_sessions.
Qed.

Lemma tunnel_step_keyed t t' :
  tunnel_step t t' -> sessions_keyed t -> sessions_keyed t'.
Proof.
  intros Hs Hk. destruct Hs as
    [env channel options t t' c e Hd|channel options t t' c e Hl|channel t
    |lc t t' e Hc|linkSend msg t t' tried ch Hp|loopback channel sessionId t
    |channel key s t Hlook|key f t Hf|t t' Heq].
  - by eapply keyed_Dial.
  - by eapply keyed_Listen.
  - by apply keyed_delSession.
  - destruct (Close_sessions _ _ _ _ Hc) as [Heq|Heq].
    + by apply (keyed_same_sessions t).
    + intros k s. rewrite Heq. by rewrite lookup_empty.
  - apply (keyed_same_sessions t); [|done].
    change t' with (t', tried, ch).1.1. rewrite <- Hp. apply process_sessions.
  - unfold Tunnel.listen_close. destruct (Tunnel.getSession _ _ _); [|done].
    case_match; [by apply keyed_delSession|done].
  - unfold Tunnel.listen_closed. case_match; [by apply keyed_delete|done].
  - by apply keyed_alter.
  - by apply (keyed_same_sessions t).
Qed.

Lemma reachable_keyed i tok t :
  rtc tunnel_step (Tunnel.newTunnel i tok) t -> sessions_keyed t.
Proof.
  intros Hr. eapply (rtc_ind_r (fun t => sessions_keyed t)); [..|exact Hr].
  - apply keyed_newTunnel.
  - intros t1 t2 _ Hs Hk. by eapply tunnel_step_keyed.
Qed.

Lemma putSession_dom key c t :
  dom (Tunnel.sessions (Tunnel.putSession key c t)) = dom (Tunnel.sessions t).
Proof. unfold Tunnel.putSession. simpl. apply dom_alter_L. Qed.

Lemma delSession_dom channel session t :
  dom (Tunnel.sessions (Tunnel.delSession channel session t))
  ⊆ dom (Tunnel.sessions t).
Proof.
  unfold Tunnel.delSession. destruct (Tunnel.sessions t !! _); simpl;
    rewrite dom_delete_L; set_solver.
Qed.

Lemma Dial_open_dom env measured c t :
  dom (Tunnel.sessions (Tunnel.Dial_open env measured c t).1.1)
  ⊆ dom (Tunnel.sessions t).
Proof.
  unfold Tunnel.Dial_open. destruct (Tunnel.Open env c); simpl.
  - apply delSession_dom.
  - case_match; simpl; [|done]. by rewrite measure_sessions.
Qed.

Lemma Dial_discover_dom env key c t :
  dom (Tunnel.sessions (Tunnel.Dial_discover env key c t).1.1)
  ⊆ dom (Tunnel.sessions t).
Proof.
  unfold Tunnel.Dial_discover.
  destruct (negb (Session.discovered c)); [|apply Dial_open_dom].
  destruct (Tunnel.Discover env c) as [[err|] lk]; simpl.
  - apply delSession_dom.
  - destruct (Tunnel.measure _ _ _) as [t1 m] eqn:Hm.
    etrans; [apply Dial_open_dom|].
    change t1 with (t1, m).1. rewrite <- Hm, measure_sessions.
    by rewrite putSession_dom.
Qed.

(** The keys [Dial] leaves in the session map are those it found and,
    at most, the key of the session it made with [newSession]. *)
Lemma Dial_dom env channel options t t' r e :
  Tunnel.Dial env channel options t = Some (t', r, e) ->
  dom (Tunnel.sessions t')
  ⊆ dom (Tunnel.sessions (Tunnel.newSession channel (Tunnel.newSessionId env) t).1).
Proof.
  intros Hd. unfold Tunnel.Dial in Hd.
  destruct (Tunnel.newSession _ _ _) as [t0 [c0|]]; simpl; [|by simplify_eq].
  destruct (_ && _) in Hd.
  { injection Hd as <- _ _. etrans; [apply delSession_dom|]. by rewrite putSession_dom. }
  destruct (_ && _) in Hd.
  - destruct (Tunnel.pickLink _ _) as [lk|]; [|done]. simpl in Hd.
    injection Hd as Hd. change t' with (t', r, e).1.1. rewrite <- Hd.
    etrans; [apply Dial_discover_dom|]. by rewrite !putSession_dom.
  - injection Hd as Hd. change t' with (t', r, e).1.1. rewrite <- Hd.
    etrans; [apply Dial_discover_dom|]. by rewrite putSession_dom.
Qed.

Lemma newSession_dom channel sid t k :
  k ∈ dom (Tunnel.sessions (Tunnel.newSession channel sid t).1) ->
  k ∉ dom (Tunnel.sessions t) ->
  k = channel +:+ sid
  /\ exists t1 c, Tunnel.newSession channel sid t = (t1, Some c).
Proof.
  pose proof (newSession_spec channel sid t) as Hn.
  destruct (Tunnel.sessions t !! _); [rewrite Hn; simpl; done|].
  destruct Hn as (c & Hn & _). rewrite Hn. simpl. rewrite dom_insert_L.
  intros Hin Hnot. split; [set_solver|]. eauto.
Qed.

(** A key that appears in the session map was put there by
    [newSession]. *)
Lemma tunnel_step_adds t t' k :
  tunnel_step t t' ->
  Tunnel.sessions t !! k = None -> is_Some (Tunnel.sessions t' !! k) ->
  exists channel sid t1 c,
    k = channel +:+ sid /\ Tunnel.newSession channel sid t = (t1, Some c).
Proof.
  intros Hs Hnone Hsome.
  apply not_elem_of_dom in Hnone. apply elem_of_dom in Hsome.
  destruct Hs as
    [env channel options t t' c e Hd|channel options t t' c e Hl|channel t
    |lc t t' e Hc|linkSend msg t t' tried ch Hp|loopback channel sessionId t
    |channel key s t Hlook|key f t Hf|t t' Heq].
  - apply Dial_dom in Hd.
    destruct (newSession_dom channel (Tunnel.newSessionId env) t k) as (-> & t1 & c1 & Hn);
      [set_solver|done|]. eauto 6.
  - unfold Tunnel.Listen in Hl.
    pose proof (newSession_dom channel "listener" t k) as Hnd.
    destruct (Tunnel.newSession channel "listener" t) as [t0 [c0|]] eqn:Hn;
      injection Hl as <- _ _; simpl in Hnd.
    + rewrite putSession_dom in Hsome.
      destruct (Hnd Hsome Hnone) as (-> & t1 & c1 & Hn'). eauto 6.
    + by destruct (Hnd Hsome Hnone) as (_ & t1 & c1 & Hn').
  - by apply delSession_dom in Hsome.
  - destruct (Close_sessions _ _ _ _ Hc) as [Heq|Heq]; rewrite Heq in Hsome;
      [done|set_solver].
  - exfalso. apply Hnone.
    change t' with (t', tried, ch).1.1 in Hsome. by rewrite <- Hp, process_sessions in Hsome.
  - unfold Tunnel.listen_close in Hsome. destruct (Tunnel.getSession _ _ _); [|done].
    case_match; [by apply delSession_dom in Hsome|done].
  - unfold Tunnel.listen_closed in Hsome. case_match; [|done].
    simpl in Hsome. rewrite dom_delete_L in Hsome. set_solver.
  - simpl in Hsome. by rewrite dom_alter_L in Hsome.
  - by rewrite Heq in Hsome.
Qed.



(** C10: the session map is keyed by channel and session id written one
    after the other with nothing between them.  For two pairs with the
    same concatenation [getSession] answers alike; once [newSession] has
    made a session for the first pair it returns not-ok for the second;
    [delSession] for the second pair does what it does for the first, and
    so removes the first pair's session. *)
Theorem concatenated_keys_collide (t : Tunnel.tun) (c1 s1 c2 s2 : string) :
  c1 +:+ s1 = c2 +:+ s2 ->
  Tunnel.getSession c1 s1 t = Tunnel.getSession c2 s2 t
  /\ (forall t1 s,
        Tunnel.newSession c1 s1 t = (t1, Some s) ->
        Tunnel.getSession c2 s2 t1 = Some s
        /\ Tunnel.newSession c2 s2 t1 = (t1, None)
        /\ Tunnel.getSession c1 s1 (Tunnel.delSession c2 s2 t1) = None
        /\ Tunnel.sessions (Tunnel.delSession c2 s2 t1) = Tunnel.sessions t)
  /\ Tunnel.delSession c2 s2 t = Tunnel.delSession c1 s1 t.
Proof.
  intros Heq. repeat apply conj.
  - unfold Tunnel.getSession. by rewrite Heq.
  - intros t1 s Hn. pose proof (newSession_spec c1 s1 t) as Hs.
    destruct (Tunnel.sessions t !! (c1 +:+ s1)) eqn:Hlook;
      [rewrite Hn in Hs; by simplify_eq|].
    destruct Hs as (c & Hs & _). rewrite Hn in Hs. injection Hs as -> <-.
    assert (Hget : Tunnel.getSession c2 s2
                     (Tunnel.set_sessions (<[c1 +:+ s1:=s]> (Tunnel.sessions t)) t)
                   = Some s).
    { unfold Tunnel.getSession. simpl. rewrite <- Heq. apply lookup_insert_eq. }
    repeat apply conj.
    + exact Hget.
    + pose proof (newSession_spec c2 s2
                    (Tunnel.set_sessions (<[c1 +:+ s1:=s]> (Tunnel.sessions t)) t)) as Hs2.
      unfold Tunnel.getSession in Hget. by rewrite Hget in Hs2.
    + unfold Tunnel.getSession, Tunnel.delSession. rewrite <- Heq. simpl.
      rewrite lookup_insert_eq. simpl. apply lookup_delete_eq.
    + unfold Tunnel.delSession. rewrite <- Heq. simpl.
      rewrite lookup_insert_eq. simpl. by rewrite delete_insert_eq, delete_id.
  - unfold Tunnel.delSession. by rewrite Heq.
Qed.

Lemma concatenated_keys_collide_witness :
  exists t1 s,
    Tunnel.newSession "ab" "c" (Tunnel.newTunnel "tun-a" "secret") = (t1, Some s)
    /\ Session.channel s = "ab"
    /\ Tunnel.getSession "a" "bc" t1 = Some s
    /\ Tunnel.newSession "a" "bc" t1 = (t1, None)
    /\ Tunnel.sessions (Tunnel.delSession "a" "bc" t1) = ∅.
Proof.
  eexists _, _. split; [reflexivity|]. split; [reflexivity|].
  destruct (concatenated_keys_collide (Tunnel.newTunnel "tun-a" "secret")
              "ab" "c" "a" "bc" eq_refl) as (_ & H2 & _).
  destruct (H2 _ _ eq_refl) as (Hg & Hn & _ & Hd).
  split; [exact Hg|]. split; [exact Hn|exact Hd].
Defined.

(** * Facts about routing *)

Lemma length_pos_nonempty (s : string) :
  (0 <? String.length s)%nat = true <-> s <> "".
Proof. destruct s; simpl; split; (done || intros; done || congruence). Qed.

Lemma keep_fst {A B} (a : A) (x : list A * B) :
  (let '(s, e) := x in (a :: s, e)).1 = a :: x.1.
Proof. by destruct x. Qed.

(** The two ways a link leaves or enters the list, for the case
    analysis of the filter. *)
Ltac refute :=
  let H1 := fresh in let H2 := fresh in let H3 := fresh in
  let H4 := fresh in let H5 := fresh in
  intros (H1 & H2 & H3 & H4 & H5);
  first [ congruence
        | by apply H2
        | by apply H3
        | match goal with Hex : ~ is_Some _ |- _ => by apply Hex, H4 end
        | match goal with
          | Hid : _ <> _, Hlen : _ <-> _ |- _ =>
              apply Hid, H5; [done | by apply Hlen]
          end ].
Ltac accept :=
  unfold candidate; repeat apply conj;
  [ done
  | intros [? ?]; congruence
  | intros [? ?]; congruence
  | first [ by intros _ | by intros ? ]
  | first [ by intros ?
          | by intros _ _
          | match goal with
            | Hne : _ -> m_link _ = "" |- _ =>
                let Hx := fresh in intros _ Hx; destruct Hx; by apply Hne
            end ] ].

(** Whether the first loop of [process] keeps a link depends on the
    link alone, and it keeps exactly the candidates. *)
Lemma buildSendTo_elem msg ls err node link :
  (node, link) ∈ (Tunnel.buildSendTo msg ls err).1
  <-> (node, link) ∈ ls /\ candidate msg link.
Proof.
  revert err. induction ls as [|[n l] ls IH]; intros err; simpl.
  { split; [by intros ?%elem_of_nil|by intros [?%elem_of_nil _]]. }
  assert (Hskip : forall e, ~ candidate msg l ->
            ((node, link) ∈ (Tunnel.buildSendTo msg ls e).1
             <-> (node, link) ∈ (n, l) :: ls /\ candidate msg link)).
  { intros e Hn. rewrite IH, elem_of_cons. split; [naive_solver|].
    intros [[[= -> ->]|Hin] Hc]; [done|by split]. }
  assert (Hkeep : forall e, candidate msg l ->
            ((node, link) ∈ (n, l) :: (Tunnel.buildSendTo msg ls e).1
             <-> (node, link) ∈ (n, l) :: ls /\ candidate msg link)).
  { intros e Hc. rewrite !elem_of_cons, IH. split; [|naive_solver].
    intros [[= -> ->]|[Hin Hc']]; naive_solver. }
  assert (Hne : (0 <? String.length (m_link msg))%nat = false -> m_link msg = "").
  { by destruct (m_link msg). }
  pose proof (length_pos_nonempty (m_link msg)) as Hlen.
  destruct (Link.connected l) eqn:Hcon; simpl; [|apply Hskip; refute].
  destruct (Link.loopback l) eqn:Hlb, (m_outbound msg) eqn:Hout; simpl;
    try (apply Hskip; refute).
  all: destruct (m_loopback msg) eqn:Hml; simpl; try (apply Hskip; refute).
  all: destruct (N.eqb_spec (m_mode msg) Multicast) as [Hm|Hm].
  all: try (case_bool_decide as Hex; simpl;
            [rewrite keep_fst; apply Hkeep; accept|apply Hskip; refute]).
  all: destruct (0 <? String.length (m_link msg))%nat eqn:Hl; simpl.
  all: try (destruct (String.eqb_spec (Link.id l) (m_link msg)) as [Hid|Hid]; simpl).
  all: try (apply Hskip; refute).
  all: rewrite keep_fst; apply Hkeep; accept.
Qed.

Lemma candidates_elem msg t node link :
  (node, link) ∈ Tunnel.candidates msg t
  <-> Tunnel.links t !! node = Some link /\ candidate msg link.
Proof.
  unfold Tunnel.candidates. by rewrite buildSendTo_elem, elem_of_map_to_list.
Qed.

Lemma found_cases dead l :
  Tunnel.found dead l = l \/ Tunnel.found dead l = Tunnel.closeLink l.
Proof. unfold Tunnel.found. case_bool_decide; [by right|by left]. Qed.

(** The calls of [Send] go down the list, whatever the mode. *)
Lemma sendLoop_goes_down linkSend mode m sendTo dead t sent err :
  goes_down (Tunnel.tried (Tunnel.sendLoop linkSend mode m sendTo dead t sent err))
            sendTo.
Proof.
  unfold goes_down. revert dead t sent err.
  induction sendTo as [|[node link] rest IH]; intros dead t sent err; simpl;
    [constructor|].
  pose proof (found_cases dead link) as Hf.
  destruct (linkSend _ m) as [link' [errr|]]; simpl.
  - constructor; [done|apply IH].
  - destruct (Unicast <? mode)%N; simpl; (constructor; [done|]);
      [apply IH|rewrite take_0; constructor].
Qed.

(** What is recorded for a call is what [Send] returned on that link. *)
Lemma sendLoop_results linkSend mode m sendTo dead t sent err :
  Forall (fun a : Tunnel.attempt => (linkSend a.1.2 m).2 = a.2)
         (Tunnel.tried (Tunnel.sendLoop linkSend mode m sendTo dead t sent err)).
Proof.
  revert dead t sent err.
  induction sendTo as [|[node link] rest IH]; intros dead t sent err; simpl;
    [constructor|].
  destruct (linkSend _ m) as [link' [errr|]] eqn:Hs; simpl.
  - constructor; [simpl; by rewrite Hs|apply IH].
  - destruct (Unicast <? mode)%N; simpl; (constructor; [simpl; by rewrite Hs|]);
      [apply IH|constructor].
Qed.

Lemma sendLoop_unicast linkSend m sendTo dead t sent err :
  stops_at_first_sent
    (Tunnel.tried (Tunnel.sendLoop linkSend Unicast m sendTo dead t sent err))
    (length sendTo).
Proof.
  unfold stops_at_first_sent. revert dead t sent err.
  induction sendTo as [|[node link] rest IH]; intros dead t sent err; simpl.
  { split; [by intros i a ?|lia]. }
  destruct (linkSend _ m) as [link' [errr|]]; simpl.
  - destruct (IH (Transport.Remote (Link.Socket link') :: dead)
                 (Tunnel.delLink (Transport.Remote (Link.Socket link'))
                    (Tunnel.putLink node link' t))
                 sent (Some (ErrNew (Error errr)))) as [IH1 IH2].
    split.
    + intros [|i] a; simpl; [by intros [= <-]|].
      intros Hi Ha. f_equal. by eapply IH1.
    + intros Hlt. destruct IH2 as (a & Hl & Ha); [lia|].
      exists a. split; [|done].
      destruct (Tunnel.tried _) as [|b tl]; [done|]. by rewrite last_cons, Hl.
  - split.
    + intros [|i] a; simpl; [done|by intros ?].
    + intros _. by eexists.
Qed.

Lemma sendLoop_all linkSend mode m sendTo dead t sent err :
  (Unicast < mode)%N ->
  length (Tunnel.tried (Tunnel.sendLoop linkSend mode m sendTo dead t sent err))
  = length sendTo.
Proof.
  intros Hm%N.ltb_lt. revert dead t sent err.
  induction sendTo as [|[node link] rest IH]; intros dead t sent err; simpl;
    [done|].
  destruct (linkSend _ m) as [link' [errr|]]; simpl; [by rewrite IH|].
  rewrite Hm. simpl. by rewrite IH.
Qed.

(** C3: one turn of the outbound multiplexer [process].  A link of the
    tunnel is a candidate exactly when it is connected, is not a loopback
    link while the envelope is outbound, is a loopback link if the
    envelope is marked loopback, has the envelope's channel in its
    channel map if the mode is Multicast, and has the envelope's link id
    if one is named and the mode is not Multicast.  The calls of [Send]
    go down the candidates in order and record what [Send] returned; for
    Unicast no call follows a successful one and a candidate is left out
    only after a success; for Multicast and Broadcast [Send] is called on
    every candidate. *)
Theorem process_filters_and_sends linkSend (msg : message) (t t' : Tunnel.tun)
    (tried : list Tunnel.attempt) (ch : option (list (option error))) :
  Tunnel.process linkSend msg t = (t', tried, ch) ->
  (forall node link,
     (node, link) ∈ Tunnel.candidates msg t
     <-> Tunnel.links t !! node = Some link /\ candidate msg link)
  /\ goes_down tried (Tunnel.candidates msg t)
  /\ Forall (fun a : Tunnel.attempt =>
               (linkSend a.1.2 (Tunnel.newMsg msg)).2 = a.2) tried
  /\ (m_mode msg = Unicast ->
      stops_at_first_sent tried (length (Tunnel.candidates msg t)))
  /\ (m_mode msg = Multicast \/ m_mode msg = Broadcast ->
      length tried = length (Tunnel.candidates msg t)).
Proof.
  intros Hp. split; [intros node link; apply candidates_elem|].
  unfold Tunnel.process in Hp. unfold Tunnel.candidates.
  destruct (Tunnel.buildSendTo _ _ _) as [sendTo err]. simpl.
  injection Hp as _ <- _.
  split; [apply sendLoop_goes_down|].
  split; [apply sendLoop_results|].
  split.
  - intros ->. apply sendLoop_unicast.
  - intros Hm. apply sendLoop_all. destruct Hm as [-> | ->]; reflexivity.
Qed.

Lemma process_filters_and_sends_witness :
  let r := Tunnel.process (failsOn "c") (envelope Unicast) threeLinks in
  r.1.2.*1.*1 = ["n3"; "n1"]
  /\ r.1.2.*2 = [Some Sample.brokenPipe; None]
  /\ stops_at_first_sent r.1.2 2.
Proof.
  intros r.
  destruct (process_filters_and_sends (failsOn "c") (envelope Unicast)
              threeLinks r.1.1 r.1.2 r.2 eq_refl) as (_ & _ & _ & Hu & _).
  split; [reflexivity|]. split; [reflexivity|]. exact (Hu eq_refl).
Defined.

(** * Facts about [Dial] *)

Lemma dialLinks_elem channel want ls link :
  link ∈ Tunnel.dialLinks channel want ls
  <-> exists node, (node, link) ∈ ls
                   /\ (want <> "" -> Link.id link = want)
                   /\ Link.getChannel channel link <> 0%Z.
Proof.
  pose proof (length_pos_nonempty want) as Hlen.
  induction ls as [|[n l] ls IH]; simpl.
  { split; [by intros ?%elem_of_nil|]. by intros (? & ?%elem_of_nil & _). }
  assert (Hskip : ~ ((want <> "" -> Link.id l = want)
                     /\ Link.getChannel channel l <> 0%Z) ->
            (link ∈ Tunnel.dialLinks channel want ls
             <-> exists node, (node, link) ∈ (n, l) :: ls
                   /\ (want <> "" -> Link.id link = want)
                   /\ Link.getChannel channel link <> 0%Z)).
  { intros Hn. rewrite IH. split.
    - intros (node & Hin & H). exists node. split; [by right|done].
    - intros (node & Hin & H). apply elem_of_cons in Hin as [[= -> ->]|Hin];
        [done|by exists node]. }
  destruct (0 <? String.length want)%nat eqn:Hl; simpl.
  - destruct (String.eqb_spec (Link.id l) want) as [Hid|Hid]; simpl.
    + unfold IsZero. destruct (Z.eqb_spec (Link.getChannel channel l) 0) as [Hz|Hz];
        simpl; [apply Hskip; by intros [_ ?]|].
      rewrite elem_of_cons, IH. split.
      * intros [->|(node & Hin & H)]; [exists n|exists node];
          (split; [by (left || right)|done]).
      * intros (node & Hin & H). apply elem_of_cons in Hin as [[= -> ->]|Hin];
          [by left|right; by exists node].
    + apply Hskip. intros [H _]. apply Hid, H, Hlen, eq_refl.
  - assert (want = "") as -> by (by destruct want).
    unfold IsZero. destruct (Z.eqb_spec (Link.getChannel channel l) 0) as [Hz|Hz];
      simpl; [apply Hskip; by intros [_ ?]|].
    rewrite elem_of_cons, IH. split.
    * intros [->|(node & Hin & H)]; [exists n|exists node];
        (split; [by (left || right)|done]).
    * intros (node & Hin & H). apply elem_of_cons in Hin as [[= -> ->]|Hin];
        [by left|right; by exists node].
Qed.

Lemma dialLinks_nil channel want t :
  want <> "" ->
  Tunnel.dialLinks channel want (map_to_list (Tunnel.links t)) = []
  <-> ~ pinned channel want t.
Proof.
  intros Hw. unfold pinned. split.
  - intros Hnil (node & link & Hl & Hid & Hc).
    assert (link ∈ Tunnel.dialLinks channel want (map_to_list (Tunnel.links t))) as Hin.
    { apply dialLinks_elem. exists node. by rewrite elem_of_map_to_list. }
    rewrite Hnil in Hin. by apply elem_of_nil in Hin.
  - intros Hno. apply elem_of_nil_inv. intros link (node & Hin & Hid & Hc)%dialLinks_elem.
    apply Hno. exists node, link. rewrite <- elem_of_map_to_list. auto.
Qed.

(** [pickLink] does not panic on a list that is not empty. *)
Lemma pickLink_total rnd links :
  links <> [] -> is_Some (Tunnel.pickLink rnd links).
Proof.
  intros Hne. unfold Tunnel.pickLink. destruct (Tunnel.pickBest links); [by eexists|].
  unfold Tunnel.Intn. destruct links as [|l ls]; [done|]. simpl.
  apply lookup_lt_is_Some. simpl.
  pose proof (Nat.mod_upper_bound rnd (S (length ls))). lia.
Qed.

Lemma delSession_sessions channel sid t :
  Tunnel.sessions (Tunnel.delSession channel sid t)
  = delete (channel +:+ sid) (Tunnel.sessions t).
Proof. unfold Tunnel.delSession. by destruct (Tunnel.sessions t !! _). Qed.

(** How [Dial] ends from [c.Open()] on. *)
Lemma Dial_open_result env measured c t :
  let r := Tunnel.Dial_open env measured c t in
  (r.2 = None /\ r.1.2 = Some c /\ Tunnel.sessions r.1.1 = Tunnel.sessions t)
  \/ (r.2 = Tunnel.Open env c /\ r.2 <> None /\ r.1.2 = None
      /\ Tunnel.sessions r.1.1
         = delete (Session.channel c +:+ Session.session c) (Tunnel.sessions t)).
Proof.
  unfold Tunnel.Dial_open. destruct (Tunnel.Open env c) as [e|] eqn:Ho; simpl.
  - right. repeat split; try done. unfold Tunnel.delSession.
    by destruct (Tunnel.sessions t !! _).
  - left. case_match; simpl; [|done]. by rewrite measure_sessions.
Qed.

(** How [Dial] ends from the test of [c.discovered] on: without an
    error, or with the error of [Discover] or of [Open], no session and
    the session's key deleted. *)
Lemma Dial_discover_result env key c t :
  key = Session.channel c +:+ Session.session c ->
  let r := Tunnel.Dial_discover env key c t in
  r.2 = None
  \/ (r.2 <> None
      /\ (r.2 = (Tunnel.Discover env c).1 \/ exists c', r.2 = Tunnel.Open env c')
      /\ r.1.2 = None
      /\ Tunnel.sessions r.1.1 = delete key (Tunnel.sessions t)).
Proof.
  intros Hkey. unfold Tunnel.Dial_discover.
  destruct (negb (Session.discovered c)).
  - destruct (Tunnel.Discover env c) as [[err|] lk] eqn:Hd; simpl.
    + right. repeat split; try done; [by left|].
      unfold Tunnel.delSession. rewrite <- Hkey.
      by destruct (Tunnel.sessions t !! _).
    + destruct (Tunnel.measure _ _ _) as [t1 m] eqn:Hm.
      assert (Ht1 : Tunnel.sessions t1
                    = alter (fun _ => Session.set_discovered true
                                        (Session.set_link lk c)) key
                            (Tunnel.sessions t)).
      { change t1 with (t1, m).1. by rewrite <- Hm, measure_sessions. }
      destruct (Dial_open_result env m
                  (Session.set_discovered true (Session.set_link lk c)) t1)
        as [(He & _)|(He & Hne & Hs & Hdel)]; [by left|].
      right. repeat split; try done; [right; by eexists|].
      rewrite Hdel, Ht1. simpl. rewrite <- Hkey. apply delete_alter_eq.
  - destruct (Dial_open_result env false c t)
      as [(He & _)|(He & Hne & Hs & Hdel)]; [by left|].
    right. repeat split; try done; [right; by eexists|].
    by rewrite Hdel, Hkey.
Qed.

(** Whatever the error [Dial] returns, it returns no session and the
    session map is as it found it. *)
Lemma Dial_error_sessions env channel options t t' s e :
  Tunnel.Dial env channel options t = Some (t', s, Some e) ->
  s = None /\ Tunnel.sessions t' = Tunnel.sessions t.
Proof.
  unfold Tunnel.Dial. pose proof (newSession_spec channel (Tunnel.newSessionId env) t) as Hn.
  destruct (Tunnel.sessions t !! _) eqn:Hk.
  { rewrite Hn. by intros [= <- <- _]. }
  destruct Hn as (c0 & -> & Hc & Hs).
  set (key := channel +:+ Tunnel.newSessionId env) in *.
  assert (Hback : forall m : gmap string Session.t,
            delete key m = delete key (<[key := c0]> (Tunnel.sessions t)) ->
            delete key m = Tunnel.sessions t).
  { intros m ->. rewrite delete_insert_eq. by apply delete_id. }
  match goal with |- context [bool_decide (?l = [])] => set (links := l) end.
  set (c := if bool_decide (links = []) then _ else _).
  assert (Hcc : Session.channel c = channel /\ Session.session c = Tunnel.newSessionId env).
  { unfold c. by case_bool_decide. }
  destruct Hcc as [Hcc Hcs].
  destruct (_ && _).
  { intros [= <- <- _]. split; [done|]. rewrite delSession_sessions, Hcc, Hcs.
    fold key. simpl. apply Hback. by rewrite delete_alter_eq. }
  destruct (_ && _).
  - destruct (Tunnel.pickLink _ _) as [lk|]; [|done]. simpl. intros [= Hd].
    pose proof (Dial_discover_result env key (Session.set_link (Link.id lk) c)
                  (Tunnel.putSession key (Session.set_link (Link.id lk) c)
                     (Tunnel.putSession key c
                        (Tunnel.set_sessions (<[key:=c0]> (Tunnel.sessions t)) t))))
      as Hr.
    rewrite Hd in Hr. simpl in Hr.
    destruct Hr as [|(_ & _ & -> & ->)]; [by rewrite Hcc, Hcs|done|].
    split; [done|]. apply Hback. by rewrite !delete_alter_eq.
  - intros [= Hd].
    pose proof (Dial_discover_result env key c
                  (Tunnel.putSession key c
                     (Tunnel.set_sessions (<[key:=c0]> (Tunnel.sessions t)) t)))
      as Hr.
    rewrite Hd in Hr. simpl in Hr.
    destruct Hr as [|(_ & _ & -> & ->)]; [by rewrite Hcc, Hcs|done|].
    split; [done|]. apply Hback. by rewrite !delete_alter_eq.
Qed.

(** With a session that is already discovered [Dial] goes straight to
    [Open]. *)
Lemma Dial_discovered env key c t :
  Session.discovered c = true ->
  Tunnel.Dial_discover env key c t = Tunnel.Dial_open env false c t.
Proof. intros Hd. unfold Tunnel.Dial_discover. by rewrite Hd. Qed.

Lemma Dial_pinned env channel options t :
  Tunnel.sessions t !! (channel +:+ Tunnel.newSessionId env) = None ->
  DialOptions.Link options <> "" ->
  pinned channel (DialOptions.Link options) t ->
  exists c t1, Session.discovered c = true
               /\ Tunnel.Dial env channel options t
                  = Some (Tunnel.Dial_open env false c t1).
Proof.
  intros Hk Hw Hp. unfold Tunnel.Dial.
  pose proof (newSession_spec channel (Tunnel.newSessionId env) t) as Hn.
  rewrite Hk in Hn. destruct Hn as (c0 & -> & _).
  match goal with |- context [bool_decide (?l = [])] => set (links := l) end.
  assert (Hne : links <> []).
  { intros Hnil. by apply (dialLinks_nil channel _ t Hw) in Hp. }
  rewrite (bool_decide_eq_false_2 _ Hne).
  destruct links as [|l ls] eqn:Hl; [done|]. simpl length. simpl andb.
  destruct (_ =? _)%N; simpl andb; cbv iota.
  - destruct (pickLink_total (Tunnel.rnd env) (l :: ls) Hne) as [lk ->]. simpl.
    eexists _, _. split; [|by rewrite Dial_discovered]. done.
  - eexists _, _. split; [|by rewrite Dial_discovered]. done.
Qed.




(** * Facts about [pickLink] *)

(** Past the first index, with nothing chosen and the metric still at
    its zero, the loop chooses only a connected link whose metric is
    below zero. *)
Lemma pickLoop_nothing_chosen i links :
  Forall (fun l => Link.State l = "connected" ->
                   PrimFloat.ltb (metric l) 0%float = false) links ->
  Tunnel.pickLoop (S i) links 0%float None = None.
Proof.
  intros Hall. revert i. induction Hall as [|l ls Hl _ IH]; intros i; simpl;
    [done|].
  destruct (String.eqb_spec (Link.State l) "connected") as [Hs|Hs]; simpl;
    [|apply IH].
  fold (metric l). rewrite (Hl Hs). apply IH.
Qed.

(** C1 fails on the code: the first of two candidates is closed, the
    second is connected with metric 1.  The loop takes the test
    [i == 0] for "nothing chosen yet", so it chooses nothing, and
    [pickLink] returns [links[rand.Intn(2)]]: the closed link when the
    draw is 0.  The claim has the connected link returned, and the random
    pick only when no candidate is connected. *)
Theorem pickLink_first_not_connected :
  Link.State <$> closedThenConnected = ["closed"; "connected"]
  /\ metric <$> closedThenConnected = [1%float; 1%float]
  /\ Tunnel.pickBest closedThenConnected = None
  /\ Tunnel.pickLink 0 closedThenConnected
     = Some (Sample.shut (Sample.measured "a" 1 1%Z 1%float))
  /\ Tunnel.pickLink 1 closedThenConnected
     = Some (Sample.measured "b" 1 1%Z 1%float).
Proof. repeat split; vm_compute; reflexivity. Qed.

(** * More facts about links *)

(** X1: the channel map of a link.  After [setChannel] at time [now]
    every channel named is mapped to [now] and every other channel is as
    before; after [delChannel] the channel reads as the zero time and
    every other channel is as before. *)
Theorem channel_mapping_round_trip (l : Link.t) (now : Time)
    (chs : list string) (ch : string) :
  (ch ∈ chs -> Link.getChannel ch (Link.setChannel now chs l) = now)
  /\ (ch ∉ chs ->
      Link.getChannel ch (Link.setChannel now chs l) = Link.getChannel ch l)
  /\ Link.getChannel ch (Link.delChannel ch l) = 0%Z
  /\ (forall ch', ch' <> ch ->
        Link.getChannel ch' (Link.delChannel ch l) = Link.getChannel ch' l).
Proof.
  assert (Hfold : forall (m : gmap string Time),
            foldl (fun m c => <[c := now]> m) m chs !! ch
            = if decide (ch ∈ chs) then Some now else m !! ch).
  { induction chs as [|c cs IH]; intros m; simpl; [done|].
    rewrite IH. destruct (decide (ch = c)) as [->|Hne].
    - rewrite lookup_insert_eq.
      destruct (decide (c ∈ cs)), (decide (c ∈ c :: cs)); try done;
        exfalso; set_solver.
    - rewrite lookup_insert_ne by done.
      destruct (decide (ch ∈ cs)), (decide (ch ∈ c :: cs)); try done;
        exfalso; set_solver. }
  unfold Link.getChannel, Link.setChannel, Link.delChannel. simpl.
  repeat split.
  - intros Hin. by rewrite Hfold, decide_True.
  - intros Hin. by rewrite Hfold, decide_False.
  - by rewrite lookup_delete_eq.
  - intros ch' Hne. by rewrite lookup_delete_ne.
Qed.

Lemma within_capacity_same l l' :
  Link.sendQueue l' = Link.sendQueue l ->
  Link.recvQueue l' = Link.recvQueue l ->
  Link.state l' = Link.state l ->
  within_capacity l -> within_capacity l'.
Proof. unfold within_capacity. by intros -> -> ->. Qed.

Lemma Send_update_queues m since e l :
  let l' := (Link.Send_update m since e l).1 in
  Link.sendQueue l' = Link.sendQueue l
  /\ Link.recvQueue l' = Link.recvQueue l
  /\ Link.state l' = Link.state l.
Proof.
  unfold Link.Send_update, Link.setRate. destruct e; simpl; [done|].
  destruct (0 <? _)%Z; simpl; [|done]. by destruct (PrimFloat.eqb _ _).
Qed.

Lemma link_step_capacity w w' :
  link_step w w' ->
  within_capacity (Link.lnk w) -> within_capacity (Link.lnk w').
Proof.
  intros Hs Hcap. pose proof Hcap as (Hq & Hr & Hst). destruct Hs as
    [m w w' s He|clock pick w s w' s' Hs|res pick w w' b Hp|m res w l' pk Hp
    |pick pk w l' b Hd|pick m w l' m' r Hr'|w l' r Hc|d w|now chs w|ch w
    |now w|lb w].
  - unfold Link.Send_enter in He. by injection He as <- _.
  - unfold Link.Send_step in Hs. destruct (Link.s_pc s) as [|now|now|now e|r].
    + destruct (is_closed _); by injection Hs as <- _.
    + destruct (select2 _ _ _) as [[|]|] eqn:Hsel; [| |done];
        injection Hs as <- _; [|done].
      unfold select2 in Hsel. case_bool_decide as Hlt.
      * split; [|done]. simpl. rewrite length_app. simpl.
        unfold Link.sendQueueCap in *. lia.
      * destruct (is_closed _); [|done]. by destruct pick.
    + destruct (select2 _ _ _) as [[|]|]; [| |done].
      * by injection Hs as <- _.
      * destruct (default [] _); [done|]. by injection Hs as <- _.
    + destruct (Link.Send_update _ _ _ _) as [l1 r1] eqn:Hu.
      injection Hs as <- _. simpl.
      pose proof (Send_update_queues (Link.s_m s) (Since clock now) e (Link.lnk w))
        as (H1 & H2 & H3). rewrite Hu in H1, H2, H3. simpl in *.
      by apply (within_capacity_same (Link.lnk w)).
    + done.
  - unfold Link.pump_send in Hp. destruct (select2 _ _ _) as [[|]|]; [| |done].
    + destruct (Link.sendQueue (Link.lnk w)) as [|pk rest] eqn:Hsq; [done|].
      destruct (Link.status pk); [|done]. simpl in Hp.
      case_bool_decide; [|done]. injection Hp as <- _. simpl.
      split; [|done]. simpl in *. lia.
    + by injection Hp as <- _.
  - unfold Link.pump_recv in Hp. injection Hp as <- _. by destruct res.
  - unfold Link.pump_deliver in Hd. destruct (String.eqb _ _).
    + case_bool_decide as Hlt; injection Hd as <- _; [|done].
      repeat split; try done. simpl. rewrite length_app. simpl.
      unfold Link.stateCap in *. lia.
    + destruct (select2 _ _ _) as [[|]|] eqn:Hsel; [| |done];
        injection Hd as <- _; [|done].
      unfold select2 in Hsel. case_bool_decide as Hlt.
      * repeat split; try done. simpl. rewrite length_app. simpl.
        unfold Link.recvQueueCap in *. lia.
      * destruct (is_closed _); [|done]. by destruct pick.
  - unfold Link.Recv in Hr'.
    destruct (select2 _ _ _) as [[|]|]; [| |done];
      destruct (Link.recvQueue (Link.lnk w)) as [|pk rest] eqn:Hrq;
      [by injection Hr' as <- _ _| |done|].
    all: destruct (Link.serve pk m); injection Hr' as <- _ _;
      repeat split; try done; simpl in *; lia.
  - unfold Link.Close in Hc. destruct (Link.closed (Link.lnk w)) eqn:Hcl;
      simpl in Hc; rewrite ?Hcl in Hc; simpl in Hc; by injection Hc as <- _.
  - simpl. unfold Link.setRTT. by destruct (_ <=? _)%Z.
  - done.
  - done.
  - done.
  - done.
Qed.



Lemma Recv_cons pick m l pk rest :
  Link.recvQueue l = pk :: rest ->
  Link.Recv pick m l
  = Some (Link.set_recvQueue rest l, (Link.serve pk m).1, (Link.serve pk m).2).
Proof.
  intros Hq. unfold Link.Recv. rewrite Hq. simpl.
  destruct (is_closed _), pick, (Link.serve pk m); reflexivity.
Qed.

Lemma Recvs_queue picks m l :
  length picks = length (Link.recvQueue l) ->
  Recvs picks m l
  = Some (Link.set_recvQueue [] l, served (Link.recvQueue l) m).
Proof.
  remember (Link.recvQueue l) as q eqn:Hq.
  revert picks m l Hq. induction q as [|pk q IH]; intros picks m l Hq Hlen.
  - destruct picks; [|done]. simpl. by rewrite Hq, set_recvQueue_same.
  - destruct picks as [|pick picks]; [done|]. simpl.
    rewrite (Recv_cons pick m l pk q (eq_sym Hq)). simpl.
    rewrite (IH picks _ (Link.set_recvQueue q l)); [|done|].
    + simpl. by destruct (Link.serve pk m).
    + simpl in Hlen. by injection Hlen.
Qed.

Lemma deliver_queue pks l :
  Forall forCaller pks ->
  length (Link.recvQueue l) + length pks <= Link.recvQueueCap ->
  deliver pks l = Some (Link.set_recvQueue (Link.recvQueue l ++ pks) l).
Proof.
  intros Hall. revert l. induction Hall as [|pk pks Hpk _ IH]; intros l Hlen.
  - simpl. by rewrite app_nil_r, set_recvQueue_same.
  - simpl in *. unfold Link.pump_deliver.
    destruct (String.eqb_spec (Transport.header (Link.message pk) "Micro-Method") "link")
      as [He|_]; [done|].
    rewrite bool_decide_eq_true_2 by lia.
    assert (select2 true (is_closed (Link.closed l)) First = Some First) as ->
      by (by destruct (is_closed _)).
    simpl. rewrite IH.
    + simpl. by rewrite <- app_assoc.
    + simpl. rewrite length_app. simpl. lia.
Qed.

(** X3: what the receive pump queued is handed to the callers of [Recv]
    in arrival order, each packet once.  On a link with an empty receive
    queue the pump delivers up to 128 packets that are not link state
    packets; as many calls of [Recv] then get them in that order and
    leave the queue empty, and on an open link the next [Recv] blocks. *)
Theorem Recv_in_arrival_order (pks : list Link.packet) (picks : list branch)
    (m : Transport.Message) (l : Link.t) :
  Link.recvQueue l = [] ->
  Forall forCaller pks ->
  length pks <= Link.recvQueueCap ->
  length picks = length pks ->
  exists l',
    deliver pks l = Some l'
    /\ Recvs picks m l' = Some (Link.set_recvQueue [] l', served pks m)
    /\ (Link.closed l = SigOpen ->
        forall pick m', Link.Recv pick m' (Link.set_recvQueue [] l') = None).
Proof.
  intros Hq Hall Hcap Hlen. eexists. split.
  { apply deliver_queue; [done|]. rewrite Hq. simpl. lia. }
  rewrite Hq. simpl. split.
  - by rewrite Recvs_queue.
  - intros Hc pick m'. unfold Link.Recv. simpl. by rewrite Hc.
Qed.

Lemma Recv_in_arrival_order_witness :
  exists l',
    deliver [Sample.pkt Sample.hello; Sample.pkt Sample.empty] Sample.fresh
    = Some l'
    /\ Recvs [First; Second] Sample.empty l'
       = Some (Link.set_recvQueue [] l',
               [(Sample.hello, None); (Sample.empty, None)]).
Proof.
  destruct (Recv_in_arrival_order
              [Sample.pkt Sample.hello; Sample.pkt Sample.empty]
              [First; Second] Sample.empty Sample.fresh eq_refl)
    as (l' & Hd & Hr & _).
  - repeat constructor; vm_compute; discriminate.
  - unfold Link.recvQueueCap. simpl. lia.
  - reflexivity.
  - exists l'. split; [exact Hd|exact Hr].
Defined.

Lemma Send_step_queues clock pick w s w' s' :
  Link.Send_step clock pick w s = Some (w', s') ->
  Link.recvQueue (Link.lnk w') = Link.recvQueue (Link.lnk w)
  /\ Link.state (Link.lnk w') = Link.state (Link.lnk w).
Proof.
  unfold Link.Send_step. destruct (Link.s_pc s) as [|now|now|now e|r].
  - destruct (is_closed _); by intros [= <- _].
  - destruct (select2 _ _ _) as [[|]|]; [| |done]; by intros [= <- _].
  - destruct (select2 _ _ _) as [[|]|]; [| |done].
    + by intros [= <- _].
    + destruct (default [] _); [done|]. by intros [= <- _].
  - destruct (Link.Send_update _ _ _ _) as [l1 r1] eqn:Hu. intros [= <- _].
    pose proof (Send_update_queues (Link.s_m s) (Since clock now) e (Link.lnk w))
      as (_ & H2 & H3). rewrite Hu in H2, H3. done.
  - done.
Qed.

Lemma link_step_apart w w' :
  link_step w w' ->
  apart (Link.lnk w) -> apart (Link.lnk w').
Proof.
  intros Hs Hap. pose proof Hap as [Hr Hst]. destruct Hs as
    [m w w' s He|clock pick w s w' s' Hs|res pick w w' b Hp|m res w l' pk Hp
    |pick pk w l' b Hd|pick m w l' m' r Hr'|w l' r Hc|d w|now chs w|ch w
    |now w|lb w].
  - unfold Link.Send_enter in He. by injection He as <- _.
  - destruct (Send_step_queues _ _ _ _ _ _ Hs) as [H1 H2].
    unfold apart. by rewrite H1, H2.
  - unfold Link.pump_send in Hp. destruct (select2 _ _ _) as [[|]|]; [| |done].
    + destruct (Link.sendQueue (Link.lnk w)) as [|pk rest]; [done|].
      destruct (Link.status pk); [|done]. simpl in Hp.
      case_bool_decide; [|done]. by injection Hp as <- _.
    + by injection Hp as <- _.
  - unfold Link.pump_recv in Hp. injection Hp as <- _. by destruct res.
  - unfold Link.pump_deliver in Hd.
    destruct (String.eqb_spec (Transport.header (Link.message pk) "Micro-Method") "link")
      as [He|Hne].
    + case_bool_decide; injection Hd as <- _; [|done].
      split; [done|]. simpl. apply Forall_app. split; [done|]. by constructor.
    + destruct (select2 _ _ _) as [[|]|]; [| |done]; injection Hd as <- _;
        [|done].
      split; [|done]. simpl. apply Forall_app. split; [done|]. by constructor.
  - unfold Link.Recv in Hr'.
    destruct (select2 _ _ _) as [[|]|]; [| |done];
      destruct (Link.recvQueue (Link.lnk w)) as [|pk rest] eqn:Hrq;
      [by injection Hr' as <- _ _| |done|].
    all: destruct (Link.serve pk m); injection Hr' as <- _ _;
      split; [|done]; simpl; by apply Forall_inv_tail in Hr.
  - unfold Link.Close in Hc. destruct (Link.closed (Link.lnk w)) eqn:Hcl;
      simpl in Hc; rewrite ?Hcl in Hc; simpl in Hc; by injection Hc as <- _.
  - simpl. unfold Link.setRTT. by destruct (_ <=? _)%Z.
  - done.
  - done.
  - done.
  - done.
Qed.

(** X4: link state packets never reach a caller of [Recv], and nothing
    else reaches the manager.  From [newLink] on, whatever the callers,
    the pumps and [Close] do, the receive queue holds no packet whose
    ["Micro-Method"] header is ["link"] and the state channel holds only
    such packets; so a message [Recv] hands over is never a link state
    message. *)
Theorem link_state_packets_apart (uuid : string) (now : Time)
    (s : Transport.Socket) (w : Link.world) :
  rtc link_step (Sample.world (Link.newLink uuid now s)) w ->
  apart (Link.lnk w)
  /\ forall pick m l' m',
       Link.Recv pick m (Link.lnk w) = Some (l', m', None) ->
       Transport.header m' "Micro-Method" <> "link".
Proof.
  intros Hr.
  assert (Hap : apart (Link.lnk w)).
  { eapply (rtc_ind_r (fun w => apart (Link.lnk w))); [..|exact Hr].
    - split; constructor.
    - intros w1 w2 _ Hs Hc. by apply (link_step_apart w1). }
  split; [done|]. intros pick m l' m'. destruct Hap as [Hq _].
  unfold Link.Recv.
  destruct (select2 _ _ _) as [[|]|]; [| |done];
    destruct (Link.recvQueue (Link.lnk w)) as [|pk rest]; try done.
  all: apply Forall_inv in Hq; unfold Link.serve;
    (destruct (Link.err pk); [by intros [=]|intros [= _ <-]; done]).
Qed.

Lemma link_state_packets_apart_witness :
  let w := Link.with_lnk
             (Link.set_recvQueue [Sample.pkt Sample.hello] Sample.fresh)
             (Sample.world Sample.fresh) in
  apart (Link.lnk w)
  /\ forall pick m l' m',
       Link.Recv pick m (Link.lnk w) = Some (l', m', None) ->
       Transport.header m' "Micro-Method" <> "link".
Proof.
  intros w.
  exact (link_state_packets_apart "6ba7b810" 1000%Z Sample.sock w
           (rtc_once _ _
              (step_pump_deliver First (Sample.pkt Sample.hello)
                 (Sample.world Sample.fresh) _ true eq_refl))).
Defined.

Lemma foldl_delete_lookup (m : gmap string Time) (k : list string) ch :
  foldl (fun m c => delete c m) m k !! ch
  = if decide (ch ∈ k) then None else m !! ch.
Proof.
  revert m. induction k as [|c k IH]; intros m; simpl; [done|].
  rewrite IH. destruct (decide (ch = c)) as [->|Hne].
  - rewrite lookup_delete_eq.
    destruct (decide (c ∈ k)), (decide (c ∈ c :: k)); try done;
      exfalso; set_solver.
  - rewrite lookup_delete_ne by done.
    destruct (decide (ch ∈ k)), (decide (ch ∈ c :: k)); try done;
      exfalso; set_solver.
Qed.

Lemma kill_elem clock l ch :
  ch ∈ Manage.kill clock l
  <-> exists t, Link.channels l !! ch = Some t
                /\ (Manage.killTime < Since clock t)%Z.
Proof.
  unfold Manage.kill. rewrite list_elem_of_fmap. split.
  - intros ([c t] & -> & [Hlt Hin%elem_of_map_to_list]%list_elem_of_filter).
    by exists t.
  - intros (t & Hl & Hlt). exists (ch, t). split; [done|].
    apply list_elem_of_filter. split; [done|]. by apply elem_of_map_to_list.
Qed.

Lemma tick_channels clock now l ch :
  Link.channels (Manage.tick clock now l).1.1 !! ch
  = if decide (ch ∈ Manage.kill clock l) then None
    else Link.channels l !! ch.
Proof.
  unfold Manage.tick. destruct (Manage.kill clock l) as [|c k].
  - simpl. destruct (decide (ch ∈ [])) as [Hin|]; [by apply elem_of_nil in Hin|done].
  - apply (foldl_delete_lookup (Link.channels l) (c :: k)).
Qed.

Lemma tick_fires clock now l :
  (Manage.tick clock now l).2
  = if decide (Manage.kill clock l = []) then None
    else Some (Manage.stateMessage Manage.linkRequest).
Proof. unfold Manage.tick. by destruct (Manage.kill clock l). Qed.


(** X6: how [manage] measures the round trip.  When a tick drops a
    mapping it fires a request and notes the time; when the response
    comes back without a receive error the time since then goes to
    [setRTT], so on a link without an estimate the round trip time
    becomes the time between the request and the response.  The
    mappings are as the tick left them. *)
Theorem manage_measures_round_trip
    (linkSend : Link.t -> Transport.Message -> Link.t * option error)
    (clock clock' now : Time) (p : Link.packet) (l : Link.t) :
  Manage.kill clock l <> [] ->
  Link.err p = None ->
  Transport.Body (Link.message p) = Manage.linkResponse ->
  let r := Manage.tick clock now l in
  let l' := Manage.onState linkSend clock' r.1.2 p r.1.1 in
  r.2 = Some (Manage.stateMessage Manage.linkRequest)
  /\ Link.Length l' = Spec.rtt (Link.Length l) (Since clock' clock)
  /\ ((Link.Length l <= 0)%Z -> Link.Length l' = (clock' - clock)%Z)
  /\ Link.channels l' = Link.channels r.1.1.
Proof.
  intros Hk He Hb. unfold Manage.tick, Manage.onState. rewrite He, Hb. simpl.
  destruct (Manage.kill clock l) as [|c k]; [done|]. simpl.
  rewrite setRTT_eq. simpl. repeat split.
  intros Hle. unfold Spec.rtt, Link.Length in *. by rewrite decide_True.
Qed.

Lemma manage_measures_round_trip_witness :
  let l := Link.setChannel 1000%Z ["chat"] Sample.fresh in
  let r := Manage.tick 130000000000%Z 1000%Z l in
  let l' := Manage.onState (failsOn "none") 130000000500%Z r.1.2
              (Sample.pkt (Manage.stateMessage Manage.linkResponse)) r.1.1 in
  Link.Length l' = 500%Z /\ Link.channels l' = ∅.
Proof.
  intros l r l'.
  destruct (manage_measures_round_trip (failsOn "none") 130000000000%Z
              130000000500%Z 1000%Z
              (Sample.pkt (Manage.stateMessage Manage.linkResponse)) l)
    as (_ & _ & Hlen & Hch).
  - vm_compute. discriminate.
  - reflexivity.
  - reflexivity.
  - split; [exact (Hlen ltac:(vm_compute; discriminate))|].
    etrans; [exact Hch|]. vm_compute. reflexivity.
Defined.
